(** * pync: arbitrary TCP and UDP connections and listens (Netcat for Python)

    A shallow embedding of [pync/netcat.py] and [pync/process.py]:
    the port grammar of the argument parser, the relay loop of a
    connection, the client's port iteration, the mode table of
    [parse_args], the [Netcat] factory, the [pync] entry point and the
    readers of the two process wrappers.

    Python values are modelled as the code uses them: integers as [Z],
    text as [string], byte strings as [list byte], [None] as [option],
    exceptions as values of an error type threaded next to the state. *)

From Stdlib Require Import ZArith List String Ascii Strings.Byte Bool Lia.
From Stdlib Require Import QArith Permutation Sorted DecimalString.
Import ListNotations.

Local Open Scope string_scope.
Local Open Scope Z_scope.

(** ** Python builtins used by the code *)

Module Py.

(** [s.split(sep)] with a one-character separator: every occurrence
    cuts, so the result is never empty. *)
Fixpoint split (sep : ascii) (s : string) : list string :=
  match s with
  | EmptyString => [EmptyString]
  | String c rest =>
      if Ascii.eqb c sep then EmptyString :: split sep rest
      else match split sep rest with
           | piece :: more => String c piece :: more
           | [] => [String c EmptyString]
           end
  end.

(** [s.split(sep, 1)]: only the first occurrence cuts. *)
Fixpoint split1 (sep : ascii) (s : string) : list string :=
  match s with
  | EmptyString => [EmptyString]
  | String c rest =>
      if Ascii.eqb c sep then [EmptyString; rest]
      else match split1 sep rest with
           | piece :: more => String c piece :: more
           | [] => [String c EmptyString]
           end
  end.

(** The text of a line feed. *)
Definition newline : string := String (ascii_of_nat 10) EmptyString.

(** [str(n)] for an integer. *)
Definition str_of_int (n : Z) : string :=
  NilZero.string_of_int (Z.to_int n).

(** Truth value of a text ([if s:]) and of an integer ([if n:]). *)
Definition truthy_str (s : string) : bool :=
  match s with EmptyString => false | _ => true end.

Definition truthy_int (n : Z) : bool := negb (n =? 0).

(** The decimal fragment of [int(text)]: an optional sign followed by
    ASCII digits.  It is the reading of integers used to run the model
    on concrete command lines; the development itself is stated for any
    reading [py_int : string -> option Z] ([None] is [ValueError]). *)
Definition digit_of (c : ascii) : option Z :=
  let n := Z.of_nat (nat_of_ascii c) in
  if (48 <=? n) && (n <=? 57) then Some (n - 48) else None.

Fixpoint digits_val (acc : Z) (s : string) : option Z :=
  match s with
  | EmptyString => Some acc
  | String c rest =>
      match digit_of c with
      | Some d => digits_val (10 * acc + d) rest
      | None => None
      end
  end.

Definition unsigned_int (s : string) : option Z :=
  match s with
  | EmptyString => None
  | _ => digits_val 0 s
  end.

Definition decimal_int (s : string) : option Z :=
  match s with
  | String "-"%char rest => option_map Z.opp (unsigned_int rest)
  | String "+"%char rest => unsigned_int rest
  | _ => unsigned_int s
  end.

(** Modelled from the spec: [compat.range(start, stop)], the lazy
    ascending-integer sequence used for port ranges ([pync/compat.py] is
    not among the sources): it yields [start, start+1, ..., stop-1] and
    has the attributes [start] and [stop]. *)
Record range : Type := mkrange { start : Z; stop : Z }.

Definition range_items (r : range) : list Z :=
  map (fun k => start r + Z.of_nat k) (seq 0 (Z.to_nat (stop r - start r))).

(** [sorted(values, key=lambda r: r.start)]: a stable sort; an element
    is placed before the elements of equal key that followed it. *)
Fixpoint insert_by_start (r : range) (l : list range) : list range :=
  match l with
  | [] => [r]
  | y :: ys =>
      if start r <=? start y then r :: y :: ys
      else y :: insert_by_start r ys
  end.

Fixpoint sorted_by_start (l : list range) : list range :=
  match l with
  | [] => []
  | r :: rs => insert_by_start r (sorted_by_start rs)
  end.

(** [itertools.chain] over the sorted ranges, read as the sequence it
    yields. *)
Definition chain (l : list range) : list Z := List.concat (map range_items l).

(** The exceptions the code raises or handles.  [NetcatError] stands
    for the class and its two subclasses; all three carry the message
    that [str(e)] returns. *)
Inductive netcat_error : Type :=
| BaseError
| SocketError     (* NetcatSocketError *)
| ProxyError.     (* NetcatProxyError *)

Inductive exn : Type :=
| StopReadWrite
| StopIteration
| ProcessTerminated
| ConnectionRefused (dest : string) (port : Z + string)
| NetcatError (kind : netcat_error) (msg : string)
| KeyboardInterrupt
| SystemExit
| OSError (errno : Z)             (* socket.error *)
| OtherError (name : string).

(** [errno.EPIPE] and [errno.ECONNREFUSED] *)
Definition EPIPE : Z := 32.
Definition ECONNREFUSED : Z := 111.

End Py.

(** ** The port grammar: [NetcatArgumentParser.port] and [NetcatPortAction] *)

Module Ports.
Import Py.

(** The value the [port] attribute of the parsed namespace ends with:
    a plain integer or the chained sequence of ports. *)
Inductive port_value : Type :=
| PortInt (n : Z)
| PortChain (ports : list Z).

Section Grammar.

(** Python's [int(text)]; [None] stands for [ValueError]. *)
Variable py_int : string -> option Z.

(** [_valid_port] *)
Definition _valid_port (value : Z) : bool :=
  (1 <=? value) && (value <=? 65535).

(** [[int(x) for x in value.split('-')]]: [None] when one of the pieces
    is not an integer. *)
Fixpoint ints_of (pieces : list string) : option (list Z) :=
  match pieces with
  | [] => Some []
  | x :: xs =>
      match py_int x, ints_of xs with
      | Some n, Some ns => Some (n :: ns)
      | _, _ => None
      end
  end.

(** The [try:] block of [port]: the pieces as integers, unpacked into
    exactly two names; [None] is the [ValueError] of either step. *)
Definition range_bounds (value : string) : option (Z * Z) :=
  match ints_of (split "-"%char value) with
  | Some [start_port; end_port] => Some (start_port, end_port)
  | _ => None
  end.

(** [NetcatArgumentParser.port]; [None] is the [ValueError] that
    argparse turns into a parser error. *)
Definition port (value : string) : option range :=
  match range_bounds value with
  | None =>
      (* port value is not a range. *)
      match py_int value with
      | Some v => if _valid_port v then Some (mkrange v (v + 1)) else None
      | None => None
      end
  | Some (start_port, end_port) =>
      let '(start_port, end_port) :=
        if start_port >? end_port then (end_port, start_port)
        else (start_port, end_port) in
      if forallb _valid_port [start_port; end_port]
      then Some (mkrange start_port (end_port + 1))
      else None
  end.

(** [NetcatPortAction.__call__]: the new value of the namespace's
    [port] attribute, given its value so far. *)
Definition NetcatPortAction (values : list range)
    (attr : option port_value) : option port_value :=
  match values with
  | [] => attr
  | first :: _ =>
      if (List.length values =? 1)%nat && (start first =? stop first - 1)
      then Some (PortInt (start first))
      else Some (PortChain (chain (sorted_by_start values)))
  end.

(** The [type=self.port] conversion of every token, in order. *)
Fixpoint convert_tokens (tokens : list string) : option (list range) :=
  match tokens with
  | [] => Some []
  | t :: ts =>
      match port t with
      | None => None
      | Some r =>
          match convert_tokens ts with
          | None => None
          | Some rs => Some (r :: rs)
          end
      end
  end.

(** What argparse does with the positional [port]: convert the tokens,
    then run the action on a namespace whose attribute is still [None].
    The outer [None] is the parser error. *)
Definition parse_port_tokens (tokens : list string)
    : option (option port_value) :=
  match convert_tokens tokens with
  | None => None
  | Some values => Some (NetcatPortAction values None)
  end.

(** *** The grammar as the specification words it *)

Definition in_port_space (n : Z) : Prop := 1 <= n <= 65535.

(** A token of the form [start-end]: two integer pieces around one dash. *)
Definition start_end_form (tok : string) (s e : Z) : Prop :=
  exists a b, split "-"%char tok = [a; b]
              /\ py_int a = Some s /\ py_int b = Some e.

Inductive denotes (tok : string) : range -> Prop :=
| denotes_single n :
    (forall s e, ~ start_end_form tok s e) ->
    py_int tok = Some n -> in_port_space n ->
    denotes tok (mkrange n (n + 1))
| denotes_span s e :
    start_end_form tok s e ->
    in_port_space s -> in_port_space e ->
    denotes tok (mkrange (Z.min s e) (Z.max s e + 1)).

Definition single_port (r : range) : Prop := stop r = start r + 1.

Definition ascending_starts (l : list range) : Prop :=
  StronglySorted (fun a b => start a <= start b) l.

(** *** Running the grammar *)

Example split_range : split "-"%char "8000-8005" = ["8000"; "8005"].
Proof. reflexivity. Qed.

Example split_plain : split "-"%char "8000" = ["8000"].
Proof. reflexivity. Qed.

Example split_leading_dash : split "-"%char "-5" = [""; "5"].
Proof. reflexivity. Qed.

(** *** The conversion of one token *)

Lemma ints_of_two (a b : string) (s e : Z) :
  ints_of [a; b] = Some [s; e] <-> py_int a = Some s /\ py_int b = Some e.
Proof.
  simpl. destruct (py_int a) as [x|], (py_int b) as [y|];
    (split; [intros H | intros [H1 H2]]); try discriminate.
  - inversion H. auto.
  - inversion H1. inversion H2. reflexivity.
Qed.

Lemma ints_of_length (pieces : list string) (ns : list Z) :
  ints_of pieces = Some ns -> List.length ns = List.length pieces.
Proof.
  revert ns. induction pieces as [|x xs IH]; intros ns H; simpl in H.
  - inversion H. reflexivity.
  - destruct (py_int x); [|discriminate].
    destruct (ints_of xs) as [ms|]; [|discriminate].
    inversion H. simpl. f_equal. apply IH. reflexivity.
Qed.

Lemma range_bounds_form (tok : string) (s e : Z) :
  range_bounds tok = Some (s, e) <-> start_end_form tok s e.
Proof.
  unfold range_bounds, start_end_form. split.
  - destruct (ints_of (split "-"%char tok)) as [ns|] eqn:E; [|discriminate].
    destruct ns as [|x [|y [|z ns]]]; try discriminate.
    intros H. inversion H. subst x y.
    pose proof (ints_of_length _ _ E) as L.
    destruct (split "-"%char tok) as [|a [|b [|c l]]]; try discriminate.
    exists a, b. split; [reflexivity|]. apply ints_of_two. exact E.
  - intros (a & b & Hs & Ha & Hb). rewrite Hs.
    rewrite (proj2 (ints_of_two a b s e) (conj Ha Hb)). reflexivity.
Qed.

Lemma range_bounds_none (tok : string) :
  range_bounds tok = None <-> forall s e, ~ start_end_form tok s e.
Proof.
  split.
  - intros H s e F. apply range_bounds_form in F. congruence.
  - intros H. destruct (range_bounds tok) as [[s e]|] eqn:E; [|reflexivity].
    exfalso. apply (H s e). apply range_bounds_form. exact E.
Qed.

Lemma _valid_port_space (n : Z) : _valid_port n = true <-> in_port_space n.
Proof. unfold _valid_port, in_port_space. lia. Qed.

Lemma port_denotes (tok : string) (r : range) :
  port tok = Some r <-> denotes tok r.
Proof.
  unfold port. split.
  - destruct (range_bounds tok) as [[s e]|] eqn:E.
    + apply range_bounds_form in E.
      destruct (Z.gtb_spec s e) as [G|G]; cbv [forallb];
        destruct (_valid_port s) eqn:Vs; destruct (_valid_port e) eqn:Ve;
        cbv [andb]; try discriminate;
        apply _valid_port_space in Vs, Ve; intros H; inversion H; subst r.
      * replace e with (Z.min s e) at 1 by lia.
        replace s with (Z.max s e) at 2 by lia.
        apply denotes_span; assumption.
      * replace s with (Z.min s e) at 1 by lia.
        replace e with (Z.max s e) at 2 by lia.
        apply denotes_span; assumption.
    + destruct (py_int tok) as [v|] eqn:P; [|discriminate].
      destruct (_valid_port v) eqn:V; [|discriminate].
      intros H. inversion H. apply denotes_single; auto.
      * apply range_bounds_none. exact E.
      * apply _valid_port_space. exact V.
  - intros D. destruct D as [n Hn Hp Hv | s e Hf Hs He].
    + rewrite (proj2 (range_bounds_none tok) Hn), Hp.
      rewrite (proj2 (_valid_port_space n) Hv). reflexivity.
    + rewrite (proj2 (range_bounds_form tok s e) Hf).
      apply _valid_port_space in Hs, He.
      destruct (Z.gtb_spec s e) as [G|G]; cbv [forallb];
        rewrite Hs, He; cbv [andb]; f_equal; f_equal; lia.
Qed.

Lemma port_rejects (tok : string) :
  port tok = None <-> forall r, ~ denotes tok r.
Proof.
  split.
  - intros H r D. apply port_denotes in D. congruence.
  - intros H. destruct (port tok) as [r|] eqn:E; [|reflexivity].
    exfalso. apply (H r). apply port_denotes. exact E.
Qed.

(** *** The conversion of the token list *)

Lemma convert_tokens_all (tokens : list string) (rs : list range) :
  convert_tokens tokens = Some rs <-> Forall2 denotes tokens rs.
Proof.
  revert rs. induction tokens as [|t ts IH]; intros rs; simpl.
  - split; intros H; [inversion H; constructor | inversion H; reflexivity].
  - split.
    + destruct (port t) as [r|] eqn:P; [|discriminate].
      destruct (convert_tokens ts) as [rs'|]; [|discriminate].
      intros H. inversion H. constructor.
      * apply port_denotes. exact P.
      * apply IH. reflexivity.
    + intros H. inversion H as [|? r ? rs' D F]. subst.
      rewrite (proj2 (port_denotes t r) D).
      rewrite (proj2 (IH rs') F). reflexivity.
Qed.

Lemma convert_tokens_fails (tokens : list string) :
  convert_tokens tokens = None <->
  exists tok, In tok tokens /\ forall r, ~ denotes tok r.
Proof.
  induction tokens as [|t ts IH]; simpl.
  - split; [discriminate | intros (tok & [] & _)].
  - split.
    + destruct (port t) as [r|] eqn:P.
      * destruct (convert_tokens ts) as [rs|]; [discriminate|].
        intros _. destruct (proj1 IH eq_refl) as (tok & I & N).
        exists tok. auto.
      * intros _. exists t. split; [auto|]. apply port_rejects. exact P.
    + intros (tok & [E|I] & N).
      * subst tok. rewrite (proj2 (port_rejects t) N). reflexivity.
      * destruct (port t); [|reflexivity].
        rewrite (proj2 IH (ex_intro _ tok (conj I N))). reflexivity.
Qed.

(** *** The sort of the action *)

Lemma insert_by_start_perm (r : range) (l : list range) :
  Permutation (r :: l) (insert_by_start r l).
Proof.
  induction l as [|y ys IH]; simpl; [reflexivity|].
  destruct (start r <=? start y); [reflexivity|].
  rewrite perm_swap. apply perm_skip. exact IH.
Qed.

Lemma sorted_by_start_perm (l : list range) :
  Permutation (sorted_by_start l) l.
Proof.
  induction l as [|r rs IH]; simpl; [constructor|].
  rewrite <- insert_by_start_perm. apply perm_skip. exact IH.
Qed.

Lemma insert_by_start_ascending (r : range) (l : list range) :
  ascending_starts l -> ascending_starts (insert_by_start r l).
Proof.
  unfold ascending_starts. induction l as [|y ys IH]; intros S; simpl.
  - repeat constructor.
  - inversion S as [|? ? S' F]. subst.
    destruct (Z.leb_spec (start r) (start y)) as [L|L].
    + constructor; [exact S|]. constructor; [exact L|].
      eapply Forall_impl; [|exact F]. simpl. intros a Ha. lia.
    + constructor; [apply IH; exact S'|].
      rewrite <- (insert_by_start_perm r ys).
      constructor; [lia | exact F].
Qed.

Lemma sorted_by_start_ascending (l : list range) :
  ascending_starts (sorted_by_start l).
Proof.
  induction l as [|r rs IH]; simpl.
  - constructor.
  - apply insert_by_start_ascending. exact IH.
Qed.

(** With no token at all the action returns at once and the attribute
    keeps its default [None]. *)
Lemma parse_no_token : parse_port_tokens [] = Some None.
Proof. reflexivity. Qed.

(** C1. For the port tokens [t :: ts] given on a command line: a token
    is converted exactly when it is a bare integer in 1-65535 (giving
    the range [n, n+1)) or [start-end] with both bounds in 1-65535
    (swapped when start > end); parsing fails exactly when some token is
    neither; and when every token is converted, the port value is the
    plain integer if there is one token and it is a single port, and
    otherwise the chain of the ranges sorted by start, every range
    flattened in full, overlapping or not. *)
Theorem port_tokens_parse (t : string) (ts : list string) :
  (forall tok r, port tok = Some r <-> denotes tok r)
  /\ (parse_port_tokens (t :: ts) = None <->
      exists tok, In tok (t :: ts) /\ forall r, ~ denotes tok r)
  /\ (forall r rs, Forall2 denotes (t :: ts) (r :: rs) ->
        (rs = [] /\ single_port r ->
           parse_port_tokens (t :: ts) = Some (Some (PortInt (start r))))
        /\ (~ (rs = [] /\ single_port r) ->
           exists sorted,
             Permutation sorted (r :: rs) /\ ascending_starts sorted
             /\ parse_port_tokens (t :: ts)
                = Some (Some (PortChain (List.concat (map range_items sorted)))))).
Proof.
  split; [exact port_denotes|]. split.
  - unfold parse_port_tokens.
    rewrite <- convert_tokens_fails.
    destruct (convert_tokens (t :: ts)); split; congruence.
  - intros r rs F. apply convert_tokens_all in F.
    unfold parse_port_tokens. rewrite F. unfold NetcatPortAction.
    split.
    + intros [E S]. subst rs. unfold single_port in S. simpl.
      replace (start r =? stop r - 1) with true; [reflexivity|].
      symmetry. apply Z.eqb_eq. lia.
    + intros N.
      exists (sorted_by_start (r :: rs)).
      split; [apply sorted_by_start_perm|].
      split; [apply sorted_by_start_ascending|].
      destruct ((List.length (r :: rs) =? 1)%nat && (start r =? stop r - 1))
        eqn:B; [|reflexivity].
      exfalso. apply N. apply andb_true_iff in B. destruct B as [L S].
      apply Nat.eqb_eq in L. apply Z.eqb_eq in S.
      destruct rs; [|discriminate]. unfold single_port. split; [reflexivity|lia].
Qed.

End Grammar.

(** On the decimal reading of integers the two forms of a token
    exclude each other: text that reads as an integer has no dash
    between two integers. *)
Lemma digits_have_no_dash (s : string) : forall acc v,
  digits_val acc s = Some v -> split "-"%char s = [s].
Proof.
  induction s as [|c rest IH]; intros acc v H; simpl in *; [reflexivity|].
  destruct (digit_of c) as [d|] eqn:D; [|discriminate].
  assert (N : Ascii.eqb c "-"%char = false).
  { destruct (Ascii.eqb_spec c "-"%char) as [E|E]; [|reflexivity].
    subst c. discriminate D. }
  rewrite N, (IH _ _ H). reflexivity.
Qed.

Lemma unsigned_has_no_dash (s : string) (v : Z) :
  unsigned_int s = Some v -> split "-"%char s = [s].
Proof.
  unfold unsigned_int. destruct s as [|c rest]; [discriminate|].
  apply digits_have_no_dash.
Qed.

Lemma decimal_integer_is_no_span (tok : string) (k : Z) :
  decimal_int tok = Some k ->
  forall s e, ~ start_end_form decimal_int tok s e.
Proof.
  intros H s e (a & b & Hs & Ha & Hb).
  destruct tok as [|c rest]; [discriminate H|].
  destruct (Ascii.eqb_spec c "-"%char) as [E|E].
  - subst c. simpl in H, Hs.
    destruct (unsigned_int rest) as [v|] eqn:U; [|discriminate].
    rewrite (unsigned_has_no_dash rest v U) in Hs.
    inversion Hs. subst a. discriminate Ha.
  - assert (P : split "-"%char (String c rest) = [String c rest]).
    { destruct (Ascii.eqb_spec c "+"%char) as [E'|E'].
      - subst c. simpl in H |- *.
        destruct (unsigned_int rest) as [v|] eqn:U; [|discriminate].
        rewrite (unsigned_has_no_dash rest v U). reflexivity.
      - apply (unsigned_has_no_dash _ k).
        unfold decimal_int in H.
        destruct c as [[] [] [] [] [] [] [] []]; try exact H;
          try (exfalso; apply E; reflexivity);
          try (exfalso; apply E'; reflexivity). }
    rewrite P in Hs. discriminate Hs.
Qed.

(** Testable properties 1 and 2 of the specification, on the decimal
    reading of integers. *)
Example port_8000 : port decimal_int "8000" = Some (mkrange 8000 8001).
Proof. reflexivity. Qed.

Example port_8000_8005 :
  option_map range_items (port decimal_int "8000-8005")
  = Some [8000; 8001; 8002; 8003; 8004; 8005].
Proof. reflexivity. Qed.

Example port_reversed :
  port decimal_int "8005-8000" = port decimal_int "8000-8005".
Proof. reflexivity. Qed.

Example port_zero_rejected : port decimal_int "0" = None.
Proof. reflexivity. Qed.

Example port_65536_rejected : port decimal_int "65536" = None.
Proof. reflexivity. Qed.

Example one_token_plain_integer :
  parse_port_tokens decimal_int ["8000"] = Some (Some (PortInt 8000)).
Proof. reflexivity. Qed.

Example tokens_sorted_and_chained :
  parse_port_tokens decimal_int ["9000"; "8000-8001"]
  = Some (Some (PortChain [8000; 8001; 9000])).
Proof. reflexivity. Qed.

Example overlapping_ranges_repeat :
  parse_port_tokens decimal_int ["3-4"; "1-5"]
  = Some (Some (PortChain [1; 2; 3; 4; 5; 3; 4])).
Proof. reflexivity. Qed.

Lemma port_tokens_parse_witness :
  exists sorted,
    Permutation sorted [mkrange 9000 9001; mkrange 8000 8002]
    /\ ascending_starts sorted
    /\ parse_port_tokens decimal_int ["9000"; "8000-8001"]
       = Some (Some (PortChain (List.concat (map range_items sorted)))).
Proof.
  destruct (port_tokens_parse decimal_int "9000" ["8000-8001"])
    as (G & _ & H).
  apply (H (mkrange 9000 9001) [mkrange 8000 8002]).
  - constructor; [apply G; reflexivity|].
    constructor; [apply G; reflexivity|constructor].
  - intros [E _]. discriminate E.
Defined.

End Ports.

(** ** The relay loop: [NetcatConnection.readwrite] *)

Module Relay.

Definition bytes : Type := list byte.

Import Py.

(** The options of a [NetcatConnection] with their class defaults. *)
Record NetcatConnection : Type := mkConnection {
  C : bool;
  d : bool;
  i : Z;
  q : Z;
  w : option Z;
  plen : Z
}.

Definition defaults : NetcatConnection :=
  {| C := false; d := false; i := 0; q := 0; w := None; plen := 2048 |}.

(** The [timeout] property. *)
Definition timeout (nc : NetcatConnection) : option Z := w nc.

(** The socket as the loop sees it: which halves were shut down and
    the chunks handed to [sendall] that went out. *)
Record socket : Type := mkSocket {
  rd_shut : bool;
  wr_shut : bool;
  sent : list bytes
}.

Definition shutdown_rd (s : socket) : socket :=
  {| rd_shut := true; wr_shut := wr_shut s; sent := sent s |}.

Definition shutdown_wr (s : socket) : socket :=
  {| rd_shut := rd_shut s; wr_shut := true; sent := sent s |}.

(** What the outside world answers during one iteration: the outcome of
    the non-blocking [recv], of the read on the input stream, of
    [sendall] on a socket whose write half is still open, and the clock
    ([time.time()], in seconds) at each of the places the loop reads it. *)
Inductive recv_result : Type :=
| RecvValue (net_data : option bytes)
| RecvRaise (e : exn).

Inductive read_result : Type :=
| ReadValue (stdin_data : option bytes)
| ReadRaise (e : exn).

Inductive send_result : Type :=
| SendOk
| SendRaise (errno : Z).

Record tick : Type := mkTick {
  net_in : recv_result;
  std_in : read_result;
  net_out : send_result;
  t_recv : Q;   (* idle_time = time.time(), after data from the network *)
  t_send : Q;   (* idle_time = time.time(), after a send *)
  t_eof : Q;    (* stdin_eof = time.time() *)
  t_quit : Q;   (* time.time() - stdin_eof *)
  t_idle : Q    (* time.time() - idle_time *)
}.

(** [self.net.sendall(data)]: on a socket whose write half was shut
    down the call fails with a broken pipe; otherwise the world decides. *)
Definition sendall (s : socket) (data : bytes) (answer : send_result)
    : send_result * socket :=
  if wr_shut s then (SendRaise EPIPE, s)
  else match answer with
       | SendOk =>
           (SendOk, {| rd_shut := rd_shut s; wr_shut := wr_shut s;
                       sent := (sent s ++ [data])%list |})
       | SendRaise errno => (SendRaise errno, s)
       end.

(** [data.replace(b'\n', b'\r\n')] *)
Definition crlf (data : bytes) : bytes :=
  flat_map (fun b => if Byte.eqb b x0a then [x0d; x0a] else [b]) data.

(** The streams the loop writes to. *)
Record streams : Type := mkStreams {
  net : socket;
  stdout : list bytes
}.

(** The local variables of [readwrite]. *)
Record locals : Type := mkLocals {
  netin_eof : bool;
  stdin_eof : option Q;
  idle_time : Q
}.

(** [not stdin_eof]: unset, or a clock value that is zero. *)
Definition truthy_time (t : Q) : bool := negb (Qeq_bool t 0).

Definition not_stdin_eof (l : locals) : bool :=
  match stdin_eof l with
  | None => true
  | Some t => negb (truthy_time t)
  end.

(** Why the loop ended. *)
Inductive ending : Type :=
| NetEOF        (* if netin_eof: break *)
| RecvFailed    (* except (socket.error, OSError): return *)
| BrokenPipe    (* send failed with EPIPE: return *)
| QuitDelay     (* stdin_eof_elapsed >= self.q: return *)
| IdleTimeout   (* idle_time_elapsed >= self.timeout: return *)
| Stopped.      (* except StopReadWrite: break *)

Inductive step : Type :=
| Continue (l : locals) (io : streams)
| Finish (why : ending) (io : streams)
| Propagate (e : exn) (io : streams).

(** The [# netin] block. *)
Definition on_net_data (l : locals) (io : streams) (e : tick)
    (net_data : option bytes) : locals * streams :=
  match net_data with
  | Some ((_ :: _) as data) =>
      ({| netin_eof := netin_eof l; stdin_eof := stdin_eof l;
          idle_time := t_recv e |},
       {| net := net io; stdout := (stdout io ++ [data])%list |})
  | Some [] =>
      ({| netin_eof := true; stdin_eof := stdin_eof l;
          idle_time := idle_time l |},
       {| net := shutdown_rd (net io); stdout := stdout io |})
  | None => (l, io)
  end.

(** The [# netout] block and the [# stdin EOF] block. *)
Definition on_stdin_data (nc : NetcatConnection) (l : locals) (io : streams)
    (e : tick) (stdin_data : option bytes) : step :=
  match stdin_data with
  | Some ((_ :: _) as data) =>
      let data := if C nc then crlf data else data in
      match sendall (net io) data (net_out e) with
      | (SendOk, s) =>
          Continue {| netin_eof := netin_eof l; stdin_eof := stdin_eof l;
                      idle_time := t_send e |}
                   {| net := s; stdout := stdout io |}
      | (SendRaise errno, s) =>
          if errno =? EPIPE then Finish BrokenPipe io
          else Propagate (OSError errno) io
      end
  | Some [] =>
      let first := if not_stdin_eof l then t_eof e
                   else match stdin_eof l with Some t => t | None => t_eof e end in
      let l := {| netin_eof := netin_eof l; stdin_eof := Some first;
                  idle_time := idle_time l |} in
      let io := if q nc =? 0
                then {| net := shutdown_wr (net io); stdout := stdout io |}
                else io in
      if (q nc >? 0) && Qle_bool (inject_Z (q nc)) (t_quit e - first)
      then Finish QuitDelay io
      else Continue l io
  | None => Continue l io
  end.

(** The idle check that closes the [if not self.d:] block. *)
Definition idle_check (nc : NetcatConnection) (l : locals) (io : streams)
    (e : tick) : step :=
  match timeout nc with
  | Some secs =>
      if Qle_bool (inject_Z secs) (t_idle e - idle_time l)
      then Finish IdleTimeout io
      else Continue l io
  | None => Continue l io
  end.

(** One turn of the [while] loop. *)
Definition iteration (nc : NetcatConnection) (l : locals) (io : streams)
    (e : tick) : step :=
  if netin_eof l then Finish NetEOF io
  else
    (* if self.i: time.sleep(self.i) *)
    match net_in e with
    | RecvRaise (OSError _) => Finish RecvFailed io
    | RecvRaise StopReadWrite => Finish Stopped io
    | RecvRaise x => Propagate x io
    | RecvValue net_data =>
        let '(l, io) := on_net_data l io e net_data in
        if negb (d nc) then
          match std_in e with
          | ReadRaise StopReadWrite => Finish Stopped io
          | ReadRaise x => Propagate x io
          | ReadValue stdin_data =>
              match on_stdin_data nc l io e stdin_data with
              | Continue l io => idle_check nc l io e
              | ended => ended
              end
          end
        else Continue l io
    end.

(** The loop over the turns the world allows; [Running] is a loop that
    has not ended when the observation stops. *)
Inductive run : Type :=
| Running (l : locals) (io : streams)
| Ended (why : ending) (io : streams)
| Raised (e : exn) (io : streams).

Fixpoint loop (nc : NetcatConnection) (l : locals) (io : streams)
    (turns : list tick) : run :=
  match turns with
  | [] => Running l io
  | e :: rest =>
      match iteration nc l io e with
      | Continue l' io' => loop nc l' io' rest
      | Finish why io' => Ended why io'
      | Propagate x io' => Raised x io'
      end
  end.

(** [readwrite], started when the clock shows [now]. *)
Definition readwrite (nc : NetcatConnection) (io : streams) (now : Q)
    (turns : list tick) : run :=
  loop nc {| netin_eof := false; stdin_eof := None; idle_time := now |}
       io turns.

Definition final_streams (r : run) : streams :=
  match r with
  | Running _ io | Ended _ io | Raised _ io => io
  end.

(** An iteration in which the input stream is read and reports
    end-of-stream ([stdin_data == b'']). *)
Definition reads_eof (nc : NetcatConnection) (l : locals) (e : tick) : Prop :=
  netin_eof l = false /\ d nc = false
  /\ (exists net_data, net_in e = RecvValue net_data)
  /\ std_in e = ReadValue (Some []).

(** The time of the first EOF: the one already recorded, or the clock
    of this iteration. *)
Definition first_eof (l : locals) (e : tick) : Q :=
  match stdin_eof l with Some t => t | None => t_eof e end.

(** [time.time()] counts seconds since the epoch: it is never zero
    when the loop records it. *)
Definition clock_started (turns : list tick) : Prop :=
  Forall (fun e => truthy_time (t_eof e) = true) turns.

(** A network that stays silent: every [recv] finds nothing to read. *)
Definition silent (turns : list tick) : Prop :=
  Forall (fun e => net_in e = RecvValue None) turns.

(** Projections used to state what a step preserves. *)
Definition step_streams (s : step) : streams :=
  match s with
  | Continue _ io | Finish _ io | Propagate _ io => io
  end.

Definition eof_time_kept (t : Q) (s : step) : Prop :=
  match s with
  | Continue l _ => stdin_eof l = Some t
  | _ => True
  end.

(** The recorded EOF time, if any, is a true value: [not stdin_eof]
    will not hold again. *)
Definition recorded (l : locals) : Prop :=
  match stdin_eof l with
  | None => True
  | Some t => truthy_time t = true
  end.

Definition step_recorded (s : step) : Prop :=
  match s with
  | Continue l _ => recorded l
  | _ => True
  end.

(** A connection detached from its input with a two second idle
    timeout, a silent turn at a given time, and streams not yet used. *)
Definition detached_w2 : NetcatConnection :=
  {| C := false; d := true; i := 0; q := 0; w := Some 2; plen := 2048 |}.

Definition attached_w2 : NetcatConnection :=
  {| C := false; d := false; i := 0; q := 0; w := Some 2; plen := 2048 |}.

Definition quiet_at (t : Q) : tick :=
  {| net_in := RecvValue None; std_in := ReadValue None; net_out := SendOk;
     t_recv := t; t_send := t; t_eof := t; t_quit := t; t_idle := t |}.

Definition eof_at (t : Q) : tick :=
  {| net_in := RecvValue None; std_in := ReadValue (Some []);
     net_out := SendOk;
     t_recv := t; t_send := t; t_eof := t; t_quit := t; t_idle := t |}.

Definition quit_after_5 : NetcatConnection :=
  {| C := false; d := false; i := 0; q := 5; w := None; plen := 2048 |}.

Definition fresh_streams : streams :=
  {| net := {| rd_shut := false; wr_shut := false; sent := [] |};
     stdout := [] |}.

(** *** Step lemmas *)

Lemma on_net_data_keeps l io e net_data :
  stdin_eof (fst (on_net_data l io e net_data)) = stdin_eof l
  /\ wr_shut (net (snd (on_net_data l io e net_data))) = wr_shut (net io)
  /\ sent (net (snd (on_net_data l io e net_data))) = sent (net io).
Proof. destruct net_data as [[|b data]|]; simpl; auto. Qed.

Lemma idle_check_cases nc l io e :
  idle_check nc l io e = Continue l io
  \/ idle_check nc l io e = Finish IdleTimeout io.
Proof.
  unfold idle_check. destruct (timeout nc) as [secs|]; [|auto].
  destruct (Qle_bool _ _); auto.
Qed.

(** The idle check itself is as the specification has it: once [w]
    seconds have passed since the last read or write, it ends the loop. *)
Lemma idle_check_expired nc l io e secs :
  timeout nc = Some secs ->
  (inject_Z secs <= t_idle e - idle_time l)%Q ->
  idle_check nc l io e = Finish IdleTimeout io.
Proof.
  intros T H. unfold idle_check. rewrite T.
  rewrite (proj2 (Qle_bool_iff _ _) H). reflexivity.
Qed.

Lemma on_stdin_data_shut nc l io e stdin_data :
  wr_shut (net io) = true ->
  wr_shut (net (step_streams (on_stdin_data nc l io e stdin_data))) = true
  /\ sent (net (step_streams (on_stdin_data nc l io e stdin_data)))
     = sent (net io).
Proof.
  intros W. unfold on_stdin_data, sendall. rewrite W.
  destruct stdin_data as [[|b data]|]; simpl; auto.
  destruct (q nc =? 0), (q nc >? 0), (Qle_bool _ _); simpl; auto.
Qed.

Lemma on_stdin_data_keeps_eof nc l io e stdin_data t :
  stdin_eof l = Some t -> truthy_time t = true ->
  eof_time_kept t (on_stdin_data nc l io e stdin_data).
Proof.
  intros S T. unfold on_stdin_data, not_stdin_eof. rewrite S, T.
  destruct stdin_data as [[|b data]|]; simpl; auto.
  - destruct (_ && _); simpl; auto.
  - destruct (sendall _ _ _) as [[|errno] s]; simpl; auto.
    destruct (errno =? EPIPE); simpl; auto.
Qed.

Lemma on_stdin_data_recorded nc l io e stdin_data :
  recorded l -> truthy_time (t_eof e) = true ->
  step_recorded (on_stdin_data nc l io e stdin_data).
Proof.
  intros R T. unfold on_stdin_data, not_stdin_eof, recorded in *.
  destruct stdin_data as [[|b data]|]; simpl; auto.
  - destruct (_ && _); simpl; auto.
    destruct (stdin_eof l) as [t|]; simpl; [|exact T].
    rewrite R. simpl. exact R.
  - destruct (sendall _ _ _) as [[|errno] s]; simpl; auto.
    destruct (errno =? EPIPE); simpl; auto.
Qed.

Lemma iteration_shut nc l io e :
  wr_shut (net io) = true ->
  wr_shut (net (step_streams (iteration nc l io e))) = true
  /\ sent (net (step_streams (iteration nc l io e))) = sent (net io).
Proof.
  intros W. unfold iteration.
  destruct (netin_eof l); [auto|].
  destruct (net_in e) as [net_data|x]; [|destruct x; simpl; auto].
  destruct (on_net_data_keeps l io e net_data) as (_ & K1 & K2).
  destruct (on_net_data l io e net_data) as [l1 io1]. simpl in K1, K2.
  rewrite W in K1. rewrite <- K2.
  destruct (d nc); simpl; auto.
  destruct (std_in e) as [stdin_data|x]; [|destruct x; simpl; auto].
  pose proof (on_stdin_data_shut nc l1 io1 e stdin_data K1) as H.
  destruct (on_stdin_data nc l1 io1 e stdin_data) as [l2 io2| |]; auto.
  simpl in H. destruct (idle_check_cases nc l2 io2 e) as [E|E];
    rewrite E; exact H.
Qed.

Lemma iteration_keeps_eof nc l io e t :
  stdin_eof l = Some t -> truthy_time t = true ->
  eof_time_kept t (iteration nc l io e).
Proof.
  intros S T. unfold iteration.
  destruct (netin_eof l); [exact I|].
  destruct (net_in e) as [net_data|x]; [|destruct x; simpl; auto].
  destruct (on_net_data_keeps l io e net_data) as (K & _ & _).
  destruct (on_net_data l io e net_data) as [l1 io1]. simpl in K.
  rewrite S in K.
  destruct (d nc); simpl; auto.
  destruct (std_in e) as [stdin_data|x]; [|destruct x; simpl; auto].
  pose proof (on_stdin_data_keeps_eof nc l1 io1 e stdin_data t K T) as H.
  destruct (on_stdin_data nc l1 io1 e stdin_data) as [l2 io2| |]; simpl; auto.
  simpl in H. destruct (idle_check_cases nc l2 io2 e) as [E|E];
    rewrite E; simpl; auto.
Qed.

Lemma iteration_recorded nc l io e :
  recorded l -> truthy_time (t_eof e) = true ->
  step_recorded (iteration nc l io e).
Proof.
  intros R T. unfold iteration.
  destruct (netin_eof l); [exact I|].
  destruct (net_in e) as [net_data|x]; [|destruct x; simpl; auto].
  destruct (on_net_data_keeps l io e net_data) as (K & _ & _).
  destruct (on_net_data l io e net_data) as [l1 io1]. simpl in K.
  assert (R1 : recorded l1) by (unfold recorded in *; rewrite K; exact R).
  destruct (d nc); simpl; auto.
  destruct (std_in e) as [stdin_data|x]; [|destruct x; simpl; auto].
  pose proof (on_stdin_data_recorded nc l1 io1 e stdin_data R1 T) as H.
  destruct (on_stdin_data nc l1 io1 e stdin_data) as [l2 io2| |]; simpl; auto.
  simpl in H. destruct (idle_check_cases nc l2 io2 e) as [E|E];
    rewrite E; simpl; auto.
Qed.

(** *** Loop invariants, by induction on the turns *)

Lemma loop_shut nc turns : forall l io,
  wr_shut (net io) = true ->
  sent (net (final_streams (loop nc l io turns))) = sent (net io).
Proof.
  induction turns as [|e rest IH]; intros l io W; simpl; [reflexivity|].
  destruct (iteration_shut nc l io e W) as [W1 S1].
  destruct (iteration nc l io e) as [l' io'| |]; simpl in *; auto.
  rewrite IH; auto.
Qed.

Lemma loop_keeps_eof nc turns : forall l io t l' io',
  stdin_eof l = Some t -> truthy_time t = true ->
  loop nc l io turns = Running l' io' -> stdin_eof l' = Some t.
Proof.
  induction turns as [|e rest IH]; intros l io t l' io' S T; simpl.
  - intros H. inversion H. subst. exact S.
  - pose proof (iteration_keeps_eof nc l io e t S T) as K.
    destruct (iteration nc l io e) as [l1 io1| |]; try discriminate.
    simpl in K. apply IH; assumption.
Qed.

Lemma loop_recorded nc turns : forall l io l' io',
  recorded l -> clock_started turns ->
  loop nc l io turns = Running l' io' -> recorded l'.
Proof.
  induction turns as [|e rest IH]; intros l io l' io' R CS; simpl.
  - intros H. inversion H. subst. exact R.
  - inversion CS as [|? ? T CS']. subst.
    pose proof (iteration_recorded nc l io e R T) as K.
    destruct (iteration nc l io e) as [l1 io1| |]; try discriminate.
    simpl in K. apply IH; assumption.
Qed.

(** *** The loop at end-of-stream on the input *)

Lemma iteration_at_eof nc l io e net_data :
  netin_eof l = false -> d nc = false ->
  net_in e = RecvValue net_data -> std_in e = ReadValue (Some []) ->
  recorded l ->
  iteration nc l io e =
    let l1 := fst (on_net_data l io e net_data) in
    let io1 := snd (on_net_data l io e net_data) in
    let l2 := {| netin_eof := netin_eof l1;
                 stdin_eof := Some (first_eof l e);
                 idle_time := idle_time l1 |} in
    let io2 := if q nc =? 0
               then {| net := shutdown_wr (net io1); stdout := stdout io1 |}
               else io1 in
    if (q nc >? 0) && Qle_bool (inject_Z (q nc)) (t_quit e - first_eof l e)
    then Finish QuitDelay io2
    else idle_check nc l2 io2 e.
Proof.
  intros N D R S Rec. unfold iteration. rewrite N, R, D, S.
  destruct (on_net_data_keeps l io e net_data) as (K & _ & _).
  destruct (on_net_data l io e net_data) as [l1 io1]. simpl in *.
  unfold on_stdin_data, not_stdin_eof, first_eof, recorded in *.
  rewrite K. destruct (stdin_eof l) as [t|].
  - rewrite Rec. simpl. destruct (_ && _); reflexivity.
  - simpl. destruct (_ && _); reflexivity.
Qed.

Lemma first_eof_truthy l e :
  recorded l -> truthy_time (t_eof e) = true ->
  truthy_time (first_eof l e) = true.
Proof.
  unfold recorded, first_eof. destruct (stdin_eof l); auto.
Qed.

(** C2. The idle check is nested in the [if not self.d:] block: on a
    connection detached from its input ([d] set) it is never reached,
    so over a silent network the loop keeps running whatever idle
    timeout [w] is configured and however much time passes. *)
Theorem readwrite_detached_ignores_idle_timeout nc io now turns :
  d nc = true -> silent turns ->
  readwrite nc io now turns
  = Running {| netin_eof := false; stdin_eof := None; idle_time := now |} io.
Proof.
  intros D S. unfold readwrite.
  induction S as [|e rest H _ IH]; simpl; [reflexivity|].
  unfold iteration. simpl. rewrite H, D. simpl. exact IH.
Qed.

(** A detached connection with [w = 2], started at second 100 and
    observed until second 110 with no traffic at all: still running. *)
Lemma readwrite_detached_ignores_idle_timeout_witness :
  readwrite detached_w2 fresh_streams 100
            [quiet_at 101; quiet_at 102; quiet_at 103; quiet_at 110]
  = Running {| netin_eof := false; stdin_eof := None; idle_time := 100 |}
            fresh_streams.
Proof.
  apply readwrite_detached_ignores_idle_timeout.
  - reflexivity.
  - repeat constructor.
Defined.

(** The same observation with the input attached: the loop ends at
    second 102, as the specification says. *)
Example readwrite_attached_idle_timeout :
  readwrite attached_w2 fresh_streams 100
            [quiet_at 101; quiet_at 102; quiet_at 103; quiet_at 110]
  = Ended IdleTimeout fresh_streams.
Proof. reflexivity. Qed.

(** With the input attached, a turn that reaches the idle check [w]
    seconds or more after the last read or write ends the loop. *)
Lemma readwrite_idle_timeout_attached nc l io e secs :
  netin_eof l = false -> d nc = false -> timeout nc = Some secs ->
  net_in e = RecvValue None -> std_in e = ReadValue None ->
  (inject_Z secs <= t_idle e - idle_time l)%Q ->
  iteration nc l io e = Finish IdleTimeout io.
Proof.
  intros N D T R S H. unfold iteration. rewrite N, R, D, S. simpl.
  apply idle_check_expired with (secs := secs); assumption.
Qed.

(** C3. In a run of the relay loop, at a turn where the input stream
    reports end-of-stream: the time of the first EOF is recorded and is
    the value the loop keeps from then on; with [q = 0] the write half
    of the socket is shut down in that turn, the turn ends the loop only
    if the idle timeout expires (never when no timeout is set), and no
    byte is sent from then on; with [q > 0] the loop ends as soon as [q]
    seconds have passed since the first EOF. *)
Theorem stdin_eof_handling nc io0 now before l io e after :
  readwrite nc io0 now before = Running l io ->
  reads_eof nc l e ->
  clock_started (before ++ e :: after) ->
  (forall l' io', loop nc l io (e :: after) = Running l' io' ->
     stdin_eof l' = Some (first_eof l e))
  /\ (q nc = 0 ->
        match iteration nc l io e with
        | Continue _ io1 => wr_shut (net io1) = true
        | Finish why io1 => why = IdleTimeout /\ wr_shut (net io1) = true
        | Propagate _ _ => False
        end
        /\ (timeout nc = None ->
            exists l1 io1, iteration nc l io e = Continue l1 io1)
        /\ sent (net (final_streams (loop nc l io (e :: after))))
           = sent (net io))
  /\ (q nc > 0 ->
      (inject_Z (q nc) <= t_quit e - first_eof l e)%Q ->
      exists io1, loop nc l io (e :: after) = Ended QuitDelay io1).
Proof.
  intros Run (N & D & (net_data & R) & S) CS.
  apply Forall_app in CS. destruct CS as [CSb CSe].
  inversion CSe as [|? ? Te CSa]. subst.
  assert (Rec : recorded l).
  { unfold readwrite in Run.
    eapply loop_recorded; [|exact CSb|exact Run]. exact I. }
  pose proof (iteration_at_eof nc l io e net_data N D R S Rec) as It.
  pose proof (first_eof_truthy l e Rec Te) as Tf.
  destruct (on_net_data_keeps l io e net_data) as (_ & K1 & K2).
  cbv zeta in It.
  set (l1 := fst (on_net_data l io e net_data)) in *.
  set (io1 := snd (on_net_data l io e net_data)) in *.
  set (l2 := {| netin_eof := netin_eof l1; stdin_eof := Some (first_eof l e);
                idle_time := idle_time l1 |}) in *.
  split; [|split].
  - intros l' io' H. simpl in H. rewrite It in H.
    destruct (_ && _); [discriminate|].
    match type of H with
    | context [idle_check nc l2 ?io2 e] =>
        destruct (idle_check_cases nc l2 io2 e) as [E|E]; rewrite E in H
    end; [|discriminate].
    eapply loop_keeps_eof; [|exact Tf|exact H]. reflexivity.
  - intros Q0. simpl. rewrite It. rewrite Q0. simpl.
    set (io2 := {| net := shutdown_wr (net io1); stdout := stdout io1 |}).
    assert (W2 : wr_shut (net io2) = true) by reflexivity.
    assert (S2 : sent (net io2) = sent (net io)) by exact K2.
    split; [|split].
    + destruct (idle_check_cases nc l2 io2 e) as [E|E]; rewrite E; auto.
    + intros T. unfold idle_check. rewrite T. eauto.
    + destruct (idle_check_cases nc l2 io2 e) as [E|E]; rewrite E; simpl;
        [|exact S2].
      rewrite loop_shut; assumption.
  - intros Qp H. simpl. rewrite It.
    replace (q nc >? 0) with true by (symmetry; apply Z.gtb_lt; lia).
    rewrite (proj2 (Qle_bool_iff _ _) H). simpl. eauto.
Qed.

(** Quit delay 5: a first EOF at second 10 and another EOF read at
    second 15 ends the loop. *)
Lemma stdin_eof_handling_witness :
  exists io1,
    loop quit_after_5
         {| netin_eof := false; stdin_eof := Some 10%Q; idle_time := 3 |}
         fresh_streams [eof_at 15; quiet_at 16]
    = Ended QuitDelay io1.
Proof.
  refine (proj2 (proj2 (stdin_eof_handling quit_after_5 fresh_streams 3
                          [eof_at 10]
                          {| netin_eof := false; stdin_eof := Some 10%Q;
                             idle_time := 3 |}
                          fresh_streams (eof_at 15) [quiet_at 16]
                          _ _ _)) _ _).
  - reflexivity.
  - unfold reads_eof. simpl. repeat split. exists None. reflexivity.
  - repeat constructor.
  - reflexivity.
  - unfold Qle. simpl. lia.
Defined.

Example quit_delay_not_yet :
  loop quit_after_5
       {| netin_eof := false; stdin_eof := Some 10%Q; idle_time := 3 |}
       fresh_streams [eof_at 14]
  = Running {| netin_eof := false; stdin_eof := Some 10%Q; idle_time := 3 |}
            fresh_streams.
Proof. reflexivity. Qed.

(** One turn with traffic both ways, line feeds rewritten for [-C]. *)
Example relay_both_ways :
  readwrite {| C := true; d := false; i := 0; q := 0; w := None;
               plen := 2048 |}
            fresh_streams 3
            [{| net_in := RecvValue (Some [x68; x69]);
                std_in := ReadValue (Some [x61; x0a; x62]);
                net_out := SendOk;
                t_recv := 4; t_send := 5; t_eof := 5; t_quit := 5;
                t_idle := 5 |}]
  = Running {| netin_eof := false; stdin_eof := None; idle_time := 5 |}
            {| net := {| rd_shut := false; wr_shut := false;
                         sent := [[x61; x0d; x0a; x62]] |};
               stdout := [[x68; x69]] |}.
Proof. reflexivity. Qed.

(** End of stream from the network: the loop stops at the next turn. *)
Example relay_network_eof :
  readwrite defaults fresh_streams 3
            [{| net_in := RecvValue (Some []); std_in := ReadValue None;
                net_out := SendOk;
                t_recv := 4; t_send := 4; t_eof := 4; t_quit := 4;
                t_idle := 4 |};
             quiet_at 5]
  = Ended NetEOF {| net := {| rd_shut := true; wr_shut := false;
                              sent := [] |};
                    stdout := [] |}.
Proof. reflexivity. Qed.

(** Input that arrives after the write half was shut down is not sent:
    the send fails with a broken pipe and the loop returns. *)
Example relay_no_send_after_eof :
  readwrite defaults fresh_streams 3
            [eof_at 4;
             {| net_in := RecvValue None;
                std_in := ReadValue (Some [x61]); net_out := SendOk;
                t_recv := 5; t_send := 5; t_eof := 5; t_quit := 5;
                t_idle := 5 |}]
  = Ended BrokenPipe {| net := {| rd_shut := false; wr_shut := true;
                                  sent := [] |};
                        stdout := [] |}.
Proof. reflexivity. Qed.

Example quit_zero_shuts_write_half :
  wr_shut (net (final_streams
                  (readwrite defaults fresh_streams 3 [eof_at 10])))
  = true.
Proof. reflexivity. Qed.

End Relay.

(** ** Effects: the error stream, sockets, the exit status, exceptions *)

Module Exec.
Import Py.

(** A connection object: the socket it wraps and the port it reached. *)
Record Connection : Type := mkConn { net : nat; port : Z }.

(** What a run does to the outside, in order. *)
Inductive event : Type :=
| Wrote (chunk : string)        (* stderr.write(chunk) *)
| Closed (sock : nat)           (* sock.close() *)
| Yielded (conn : Connection).  (* yield conn *)

(** The state the code acts on: what happened so far, [exit.status] of
    [pync], and the number of sockets created ([socket.socket(...)]
    returns a new one each time). *)
Record world : Type := mkWorld {
  trace : list event;
  exit_status : Z;
  sockets : nat
}.

(** Computations: state passing with exceptions; the state survives a
    raise, as Python's side effects do. *)
Definition M (A : Type) : Type := world -> (A + exn) * world.

Definition ret {A : Type} (a : A) : M A := fun w => (inl a, w).

Definition raise {A : Type} (e : exn) : M A := fun w => (inr e, w).

Definition bind {A B : Type} (c : M A) (k : A -> M B) : M B :=
  fun w => match c w with
           | (inl a, w') => k a w'
           | (inr e, w') => (inr e, w')
           end.

(** [try: c], with the exception, if any, as a value. *)
Definition try {A : Type} (c : M A) : M (A + exn) :=
  fun w => match c w with (r, w') => (inl r, w') end.

(** [try: c finally: cleanup] *)
Definition finally {A : Type} (c : M A) (cleanup : M unit) : M A :=
  fun w => match c w with
           | (r, w') =>
               match cleanup w' with
               | (inl _, w'') => (r, w'')
               | (inr e, w'') => (inr e, w'')
               end
           end.

Definition emit (ev : event) : M unit :=
  fun w => (inl tt, {| trace := (trace w ++ [ev])%list;
                       exit_status := exit_status w;
                       sockets := sockets w |}).

Definition set_status (n : Z) : M unit :=
  fun w => (inl tt, {| trace := trace w; exit_status := n;
                       sockets := sockets w |}).

Definition new_socket : M nat :=
  fun w => (inl (sockets w), {| trace := trace w;
                                exit_status := exit_status w;
                                sockets := S (sockets w) |}).

Declare Scope exec_scope.
Delimit Scope exec_scope with exec.
Notation "x <- c ;; k" := (bind c (fun x => k))
  (at level 61, c at next level, right associativity) : exec_scope.
Notation "c ;; k" := (bind c (fun _ => k))
  (at level 61, right associativity) : exec_scope.

(** [NetcatConnection.close]: [self.net.close()], whatever was done to
    the socket before. *)
Definition close (conn : Connection) : M unit := emit (Closed (net conn)).

(** [_print_message] on the error stream, and [print_verbose]. *)
Definition _print_message (message : string) : M unit :=
  if truthy_str message then emit (Wrote (message ++ newline)%string)
  else ret tt.

Definition print_verbose (v : bool) (message : string) : M unit :=
  if v then _print_message message else ret tt.

(** Readings of a trace. *)
Fixpoint stderr_of (evs : list event) : list string :=
  match evs with
  | [] => []
  | Wrote chunk :: rest => chunk :: stderr_of rest
  | _ :: rest => stderr_of rest
  end.


Fixpoint closes_of (sock : nat) (evs : list event) : nat :=
  match evs with
  | [] => 0
  | Closed k :: rest =>
      if Nat.eqb k sock then S (closes_of sock rest) else closes_of sock rest
  | _ :: rest => closes_of sock rest
  end.


End Exec.

(** ** The client: [NetcatClient.next_connection] and [iter_connections] *)

Module Client.
Import Py Exec.
Local Open Scope exec_scope.

(** The [-X] choices. *)
Inductive proxy_protocol : Type := Socks5 | Socks4 | HttpConnect.

(** The attributes of a client that its iteration reads. *)
Record NetcatClient : Type := mkClient {
  dest : string;
  v : bool;
  n : bool;
  z : bool;
  X : proxy_protocol;
  x : option string
}.

(** What the subclasses set or override: [protocol_name], the text put
    before [v_conn_refused], and whether [_conn_succeeded] goes on to
    set [exit.status = 0] (the [Pync...Client] classes of [pync]). *)
Record client_class : Type := mkClass {
  protocol_name : string;
  refused_prefix : string;
  marks_success : bool
}.

Definition NetcatTCPClient : client_class :=
  {| protocol_name := "tcp"; refused_prefix := ""; marks_success := false |}.

Definition NetcatUDPClient : client_class :=
  {| protocol_name := "udp"; refused_prefix := ""; marks_success := false |}.

Definition PyncTCPClient : client_class :=
  {| protocol_name := "tcp"; refused_prefix := "pync: ";
     marks_success := true |}.

Definition PyncUDPClient : client_class :=
  {| protocol_name := "udp"; refused_prefix := "pync: ";
     marks_success := true |}.

(** What [_create_connection] does for one port: it returns a
    connection, or raises one of the exceptions [next_connection]
    tells apart.  [compat.ConnectionRefusedError] is the normalized
    "connection actively refused" error kind of the compatibility
    shims. *)
Inductive attempt : Type :=
| Connects
| RaisesConnectionRefused                    (* compat.ConnectionRefusedError *)
| RaisesProxyError (msg : string)            (* socks.ProxyError: str(e) and *)
    (socket_err : option (Z * string))       (*   errno, text of e.socket_err *)
| RaisesSocketError (errno : Z) (msg : string)   (* another socket.error *)
| RaisesNetcatSocketError (msg : string).    (* raised by _getaddrinfo *)

(** Who iterates: after using a yielded connection the caller closes it
    itself ([with conn: ...]) or leaves that to the iterator. *)
Record caller : Type := mkCaller { closes_after_use : bool }.

Definition use (who : caller) (conn : Connection) : M unit :=
  if closes_after_use who then close conn else ret tt.


(** Concrete surroundings for running the model: text is shown by
    [repr] between quotes and the service database is empty. *)
Definition quoted (s : string) : string := "'" ++ s ++ "'".

Definition no_services (port : Z) (proto : string) : option string := None.

Definition localhost (verbose zero_io : bool) : NetcatClient :=
  {| dest := "localhost"; v := verbose; n := false; z := zero_io;
     X := Socks5; x := None |}.

Definition blank : world := {| trace := []; exit_status := 1; sockets := 0 |}.

Section Iteration.

(** Python's [int(text)] and [repr(text)], and the service database
    behind [socket.getservbyport]. *)
Variable py_int : string -> option Z.
Variable py_repr : string -> string.
Variable getservbyport : Z -> string -> option string.

Variable cls : client_class.
Variable c : NetcatClient.

Definition str_of_port (p : Z + string) : string :=
  match p with inl k => str_of_int k | inr s => s end.

(** [v_conn_refused.format(...)] and [v_conn_succeeded.format(...)] *)
Definition v_conn_refused (dest port proto_name : string) : string :=
  refused_prefix cls ++ "connect to " ++ dest ++ " port " ++ port
    ++ " (" ++ proto_name ++ ") failed: Connection refused".

Definition v_conn_succeeded (dest port proto_name proto : string) : string :=
  "Connection to " ++ dest ++ " " ++ port ++ " port [" ++ proto_name
    ++ "/" ++ proto ++ "] succeeded!".

(** [proxy_address] and [proxy_port] of a client with proxy [px]. *)
Definition proxy_address (px : string) : string :=
  hd "" (split1 ":"%char px).

Definition default_proxy_port : Z :=
  match X c with
  | Socks5 => 1080
  | Socks4 => 1080
  | HttpConnect => 3128
  end.

Definition proxy_port (px : string) : Z + string :=
  match split1 ":"%char px with
  | _ :: text :: _ =>
      match py_int text with
      | Some k => inl k
      | None => inr (py_repr text)
      end
  | _ => inl default_proxy_port
  end.

(** [_conn_refused] *)
Definition _conn_refused {A : Type} (port : Z + string)
    (proxy_dest : option string) : M A :=
  let shown := match proxy_dest with Some a => a | None => dest c end in
  print_verbose (v c)
    (v_conn_refused shown (str_of_port port) (protocol_name cls)) ;;
  raise (ConnectionRefused (dest c) port).

(** [_conn_succeeded], with what a [Pync...Client] adds to it. *)
Definition _conn_succeeded (port : Z) : M unit :=
  let proto :=
    if negb (n c) then
      match getservbyport port (protocol_name cls) with
      | Some name => name
      | None => "*"
      end
    else "*" in
  print_verbose (v c)
    (v_conn_succeeded (dest c) (str_of_int port) (protocol_name cls) proto) ;;
  if marks_success cls then set_status 0 else ret tt.

(** [next_connection], once [next(self._iterports)] gave [port] and
    the world decided the [attempt]. *)
Definition next_connection_on (port : Z) (a : attempt) : M Connection :=
  match a with
  | RaisesConnectionRefused => _conn_refused (inl port) None
  | RaisesProxyError msg socket_err =>
      match socket_err with
      | Some (errno, text) =>
          if errno =? ECONNREFUSED then
            match x c with
            | Some px => _conn_refused (proxy_port px) (Some (proxy_address px))
            | None => raise (OtherError "AttributeError")
            end
          else raise (NetcatError ProxyError text)
      | None => raise (NetcatError ProxyError msg)
      end
  | RaisesSocketError errno msg =>
      if negb (errno =? ECONNREFUSED)
      then raise (NetcatError SocketError msg)
      else _conn_refused (inl port) None
  | RaisesNetcatSocketError msg => raise (NetcatError SocketError msg)
  | Connects =>
      sock <- new_socket ;;
      let nc_conn := {| net := sock; port := port |} in
      _conn_succeeded port ;;
      (if z c then close nc_conn else ret tt) ;;
      ret nc_conn
  end.

(** [next_connection] on the ports still to dial. *)
Definition next_connection (ports : list (Z * attempt)) : M Connection :=
  match ports with
  | [] => raise StopIteration
  | (port, a) :: _ => next_connection_on port a
  end.

(** [iter_connections], driven to the end by a caller that does
    [consume] with every connection it is given; every [yield] is
    recorded in the trace. *)
Fixpoint iter_connections (consume : Connection -> M unit)
    (ports : list (Z * attempt)) : M unit :=
  match ports with
  | [] => ret tt
  | (port, a) :: rest =>
      r <- try (next_connection_on port a) ;;
      match r with
      | inr StopIteration => ret tt
      | inr (ConnectionRefused _ _) => iter_connections consume rest
      | inr e => raise e
      | inl nc_conn =>
          finally
            (if negb (z c)
             then emit (Yielded nc_conn) ;; consume nc_conn
             else ret tt)
            (close nc_conn) ;;
          iter_connections consume rest
      end
  end.

(** *** The iteration as the specification tells it *)

(** The outcome of one port attempt (section 4.6 of the specification):
    success, a refusal shown for a destination and port, or a fatal
    error. *)
Inductive verdict : Type :=
| Accepted
| Refused (shown_dest shown_port : string)
| Fatal (e : exn).

Definition verdict_of (port : Z) (a : attempt) : verdict :=
  match a with
  | Connects => Accepted
  | RaisesConnectionRefused => Refused (dest c) (str_of_int port)
  | RaisesSocketError errno msg =>
      if errno =? ECONNREFUSED then Refused (dest c) (str_of_int port)
      else Fatal (NetcatError SocketError msg)
  | RaisesProxyError msg (Some (errno, text)) =>
      if errno =? ECONNREFUSED then
        match x c with
        | Some px => Refused (proxy_address px) (str_of_port (proxy_port px))
        | None => Fatal (OtherError "AttributeError")
        end
      else Fatal (NetcatError ProxyError text)
  | RaisesProxyError msg None => Fatal (NetcatError ProxyError msg)
  | RaisesNetcatSocketError msg => Fatal (NetcatError SocketError msg)
  end.

(** A verbose line on the error stream. *)
Definition verbose (text : string) : list event :=
  if v c then [Wrote (text ++ newline)] else [].

Definition refusal_line (shown_dest shown_port : string) : string :=
  refused_prefix cls ++ "connect to " ++ shown_dest ++ " port " ++ shown_port
    ++ " (" ++ protocol_name cls ++ ") failed: Connection refused".

Definition service_name (port : Z) : string :=
  if n c then "*"
  else match getservbyport port (protocol_name cls) with
       | Some name => name
       | None => "*"
       end.

Definition success_line (port : Z) : string :=
  "Connection to " ++ dest c ++ " " ++ str_of_int port ++ " port ["
    ++ protocol_name cls ++ "/" ++ service_name port ++ "] succeeded!".

(** What is reported for a port, and what happens to the connection
    made on socket [sock]. *)
Definition report_of (port : Z) (a : attempt) : list event :=
  match verdict_of port a with
  | Accepted => verbose (success_line port)
  | Refused shown_dest shown_port =>
      verbose (refusal_line shown_dest shown_port)
  | Fatal _ => []
  end.

Definition handling (who : caller) (sock : nat) (port : Z) : list event :=
  if z c then [Closed sock; Closed sock]
  else Yielded {| net := sock; port := port |}
         :: ((if closes_after_use who then [Closed sock] else [])
               ++ [Closed sock])%list.

Fixpoint events_of (who : caller) (sock : nat) (ports : list (Z * attempt))
    : list event :=
  match ports with
  | [] => []
  | (port, a) :: rest =>
      match verdict_of port a with
      | Accepted =>
          (report_of port a ++ handling who sock port
             ++ events_of who (S sock) rest)%list
      | Refused _ _ => (report_of port a ++ events_of who sock rest)%list
      | Fatal _ => []
      end
  end.

Fixpoint outcome_of (ports : list (Z * attempt)) : unit + exn :=
  match ports with
  | [] => inl tt
  | (port, a) :: rest =>
      match verdict_of port a with
      | Fatal e => inr e
      | _ => outcome_of rest
      end
  end.

Fixpoint status_after (status : Z) (ports : list (Z * attempt)) : Z :=
  match ports with
  | [] => status
  | (port, a) :: rest =>
      match verdict_of port a with
      | Accepted => status_after (if marks_success cls then 0 else status) rest
      | Refused _ _ => status_after status rest
      | Fatal _ => status
      end
  end.

Fixpoint created (ports : list (Z * attempt)) : nat :=
  match ports with
  | [] => 0
  | (port, a) :: rest =>
      match verdict_of port a with
      | Accepted => S (created rest)
      | Refused _ _ => created rest
      | Fatal _ => 0
      end
  end.

(** The ports of a script that accept, and a script none of whose
    attempts is fatal. *)
Definition accepting (ports : list (Z * attempt)) : list Z :=
  map fst (filter (fun pa => match verdict_of (fst pa) (snd pa) with
                             | Accepted => true
                             | _ => false
                             end) ports).

Definition no_fatal (ports : list (Z * attempt)) : Prop :=
  Forall (fun pa => forall e, verdict_of (fst pa) (snd pa) <> Fatal e) ports.

Definition add_events (w : world) (evs : list event) : world :=
  {| trace := (trace w ++ evs)%list; exit_status := exit_status w;
     sockets := sockets w |}.

Definition fatal_kind (e : exn) : Prop :=
  match e with
  | NetcatError _ _ | OtherError _ => True
  | _ => False
  end.




(** *** The code against that account *)

Lemma truthy_append (a b : string) :
  truthy_str b = true -> truthy_str (a ++ b) = true.
Proof. destruct a; simpl; auto. Qed.

Lemma refusal_line_truthy shown_dest shown_port :
  truthy_str (refusal_line shown_dest shown_port) = true.
Proof. unfold refusal_line. apply truthy_append. reflexivity. Qed.

Lemma print_verbose_line (text : string) (w : world) :
  truthy_str text = true ->
  print_verbose (v c) text w
  = (inl tt, {| trace := (trace w ++ verbose text)%list;
                exit_status := exit_status w; sockets := sockets w |}).
Proof.
  intros T. unfold print_verbose, _print_message, verbose. rewrite T.
  destruct (v c); simpl.
  - reflexivity.
  - unfold ret. rewrite app_nil_r. destruct w; reflexivity.
Qed.

Lemma _conn_refused_run (A : Type) (p : Z + string)
    (proxy_dest : option string) (w : world) :
  @_conn_refused A p proxy_dest w
  = (inr (ConnectionRefused (dest c) p),
     {| trace := (trace w
                    ++ verbose (refusal_line
                                  (match proxy_dest with
                                   | Some a => a
                                   | None => dest c
                                   end) (str_of_port p)))%list;
        exit_status := exit_status w; sockets := sockets w |}).
Proof.
  unfold _conn_refused, bind.
  change (v_conn_refused ?a ?b (protocol_name cls)) with (refusal_line a b).
  rewrite print_verbose_line by apply refusal_line_truthy.
  reflexivity.
Qed.

Lemma _conn_succeeded_run (p : Z) (w : world) :
  _conn_succeeded p w
  = (inl tt,
     {| trace := (trace w ++ verbose (success_line p))%list;
        exit_status := if marks_success cls then 0 else exit_status w;
        sockets := sockets w |}).
Proof.
  unfold _conn_succeeded, bind.
  assert (E : v_conn_succeeded (dest c) (str_of_int p) (protocol_name cls)
                (if negb (n c)
                 then match getservbyport p (protocol_name cls) with
                      | Some name => name
                      | None => "*"
                      end
                 else "*") = success_line p).
  { unfold v_conn_succeeded, success_line, service_name.
    destruct (n c); reflexivity. }
  rewrite E. rewrite print_verbose_line by reflexivity.
  destruct (marks_success cls); reflexivity.
Qed.

Lemma next_connection_on_verdict (p : Z) (a : attempt) (w : world) :
  match verdict_of p a with
  | Accepted =>
      next_connection_on p a w
      = (inl {| net := sockets w; port := p |},
         {| trace := (trace w ++ report_of p a
                        ++ (if z c then [Closed (sockets w)] else []))%list;
            exit_status := if marks_success cls then 0 else exit_status w;
            sockets := S (sockets w) |})
  | Refused _ _ =>
      exists payload,
        next_connection_on p a w
        = (inr (ConnectionRefused (dest c) payload),
           add_events w (report_of p a))
  | Fatal e => next_connection_on p a w = (inr e, w) /\ fatal_kind e
  end.
Proof.
  unfold report_of.
  destruct a as [| |msg [[errno text]|]|errno msg|msg]; simpl.
  - unfold bind, new_socket. rewrite _conn_succeeded_run. simpl.
    destruct (z c); simpl.
    + unfold close, emit, ret. simpl. rewrite <- app_assoc. reflexivity.
    + unfold ret. rewrite app_nil_r. reflexivity.
  - eexists. rewrite _conn_refused_run. reflexivity.
  - destruct (errno =? ECONNREFUSED).
    + destruct (x c) as [px|]; simpl.
      * eexists. rewrite _conn_refused_run. reflexivity.
      * split; [reflexivity | exact I].
    + split; [reflexivity | exact I].
  - split; [reflexivity | exact I].
  - destruct (errno =? ECONNREFUSED); simpl.
    + eexists. rewrite _conn_refused_run. reflexivity.
    + split; [reflexivity | exact I].
  - split; [reflexivity | exact I].
Qed.

Lemma use_run (who : caller) (conn : Connection) (w : world) :
  use who conn w
  = (inl tt,
     add_events w (if closes_after_use who then [Closed (net conn)] else [])).
Proof.
  unfold use, close, emit, ret, add_events.
  destruct (closes_after_use who); [reflexivity|].
  rewrite app_nil_r. destruct w; reflexivity.
Qed.

Lemma iter_connections_run (who : caller) (ports : list (Z * attempt)) :
  forall w,
    iter_connections (use who) ports w
    = (outcome_of ports,
       {| trace := (trace w ++ events_of who (sockets w) ports)%list;
          exit_status := status_after (exit_status w) ports;
          sockets := sockets w + created ports |}).
Proof.
  induction ports as [|[p a] rest IH]; intros w; simpl.
  - unfold ret. rewrite app_nil_r, Nat.add_0_r. destruct w; reflexivity.
  - unfold bind at 1. unfold try.
    pose proof (next_connection_on_verdict p a w) as V.
    destruct (verdict_of p a) as [|shown_dest shown_port|e] eqn:Ve.
    + rewrite V. simpl. unfold bind at 1. unfold finally, handling.
      destruct (z c) eqn:Z; simpl.
      * unfold close, emit. simpl. rewrite IH. simpl.
        repeat rewrite <- app_assoc. simpl.
        rewrite Nat.add_succ_r. reflexivity.
      * unfold bind at 1. unfold emit at 1. simpl.
        rewrite use_run. unfold close, emit. simpl. rewrite IH. simpl.
        repeat rewrite <- app_assoc. simpl.
        rewrite Nat.add_succ_r.
        destruct (closes_after_use who); reflexivity.
    + destruct V as [payload V]. rewrite V. simpl. rewrite IH. simpl.
      rewrite <- app_assoc. reflexivity.
    + destruct V as [V K]. rewrite V.
      destruct e; try contradiction; simpl; unfold raise;
        rewrite app_nil_r, Nat.add_0_r; destruct w; reflexivity.
Qed.

(** *** Readings of the account *)













Lemma events_of_outcome (ports : list (Z * attempt)) :
  no_fatal ports -> outcome_of ports = inl tt.
Proof.
  intros NF. induction NF as [|[p a] rest H _ IH]; simpl; [reflexivity|].
  simpl in H. destruct (verdict_of p a) as [| |e]; auto.
  exfalso. apply (H e). reflexivity.
Qed.











End Iteration.

(** *** Zero-I/O mode against normal mode *)

Section ZeroIO.

Variable py_int : string -> option Z.
Variable py_repr : string -> string.
Variable getservbyport : Z -> string -> option string.
Variable cls : client_class.






End ZeroIO.

(** Testable property 6: port 8000 refuses, port 8001 accepts. *)
Example refused_then_accepted :
  iter_connections decimal_int quoted no_services NetcatTCPClient
                   (localhost true false) (use (mkCaller false))
                   [(8000, RaisesConnectionRefused); (8001, Connects)] blank
  = (inl tt,
     {| trace :=
          [Wrote ("connect to localhost port 8000 (tcp) failed: Connection refused"
                    ++ newline);
           Wrote ("Connection to localhost 8001 port [tcp/*] succeeded!"
                    ++ newline);
           Yielded {| net := 0; port := 8001 |};
           Closed 0];
        exit_status := 1; sockets := 1 |}).
Proof. reflexivity. Qed.

(** A refusal at the proxy hop names the proxy. *)
Example refused_at_proxy :
  stderr_of (trace (snd
    (iter_connections decimal_int quoted no_services NetcatTCPClient
       {| dest := "example.org"; v := true; n := false; z := false;
          X := HttpConnect; x := Some "10.0.0.1" |}
       (use (mkCaller false))
       [(80, RaisesProxyError "proxy down" (Some (ECONNREFUSED, "refused")))]
       blank)))
  = [("connect to 10.0.0.1 port 3128 (tcp) failed: Connection refused"
        ++ newline)%string].
Proof. reflexivity. Qed.

(** Testable property 8: a scan of an open port. *)
Example zero_io_open_port :
  iter_connections decimal_int quoted no_services NetcatTCPClient
                   (localhost true true) (use (mkCaller false))
                   [(8000, Connects)] blank
  = (inl tt,
     {| trace :=
          [Wrote ("Connection to localhost 8000 port [tcp/*] succeeded!"
                    ++ newline);
           Closed 0; Closed 0];
        exit_status := 1; sockets := 1 |}).
Proof. reflexivity. Qed.




(** The same happens in normal mode when the caller closes the
    connection it was given. *)
Example caller_and_iterator_both_close :
  closes_of 0 (trace (snd
    (iter_connections decimal_int quoted no_services NetcatTCPClient
                      (localhost false false) (use (mkCaller true))
                      [(8000, Connects)] blank)))
  = 2%nat.
Proof. reflexivity. Qed.


End Client.

(** ** The mode table of [parse_args] and the [Netcat] factory *)

Module Cli.
Import Py Ports.

(** The general options that [parse_args] and the factory hand on
    untouched. *)
Record general_options : Type := mkOptions {
  _4 : bool; _6 : bool; b : bool; C : bool; D : bool; d : bool;
  I : option Z; i : option Z; n : bool; O : option Z; q : Z;
  T : option Z; v : bool; w : option Z
}.

(** The three namespaces of [group_parse_args]. *)
Record general_arguments : Type := mkGeneral {
  dest : string;
  port : option port_value;
  p : option Z;
  u : bool;
  options : general_options
}.

Record client_arguments : Type := mkClientArgs {
  P : option string; r : bool; s : option string;
  X : string; x : option string; z : bool
}.

Record server_arguments : Type := mkServerArgs { k : bool; l : bool }.

(** The namespace [parse_args] returns: the general values overlaid
    with those of the group of the mode, the other group dropped. *)
Inductive mode_arguments : Type :=
| ServerMode (server_args : server_arguments)
| ClientMode (client_args : client_arguments).

Record namespace : Type := mkNamespace {
  general : general_arguments;
  selected : mode_arguments
}.

Inductive parse_result : Type :=
| Parsed (ns : namespace)
| UsageExit      (* self.print_usage(); self.exit() *)
| ParserError.   (* the second parse rejects the port: parser error *)

(** Truth values of the tested attributes. *)
Definition given_port (o : option port_value) : bool :=
  match o with
  | None => false
  | Some (PortInt k) => truthy_int k
  | Some (PortChain _) => true
  end.

Definition given_int (o : option Z) : bool :=
  match o with
  | None => false
  | Some k => truthy_int k
  end.

Definition set_dest_port (args : general_arguments) (new_dest : string)
    (new_port : option port_value) : general_arguments :=
  {| dest := new_dest; port := new_port; p := p args; u := u args;
     options := options args |}.

(** The objects the factory builds.  A server keeps the address it
    binds: [dest], or all interfaces when [dest] is empty, and [port],
    shown by [repr] when it is not an integer. *)
Inductive transport : Type := TCP | UDP.

Record kwargs : Type := mkKwargs {
  kw_options : general_options;
  kw_k : option bool;
  kw_client : option client_arguments
}.

Record server : Type := mkServer {
  server_transport : transport;
  bind_dest : string;
  bind_port : Z + string;
  server_kwargs : kwargs
}.

Record client : Type := mkClientObject {
  client_transport : transport;
  client_dest : string;
  client_port : option port_value;
  source_port : option Z;
  client_kwargs : kwargs
}.

Inductive netcat : Type :=
| Server (srv : server)
| Client (cli : client).

(** The namespaces argparse produces for [-l 8000] and for
    [-l -p 8000 localhost 8001]. *)
Definition no_options : general_options :=
  {| _4 := false; _6 := false; b := false; C := false; D := false;
     d := false; I := None; i := None; n := false; O := None; q := 0;
     T := None; v := false; w := None |}.

Definition no_client_arguments : client_arguments :=
  {| P := None; r := false; s := None; X := "5"; x := None; z := false |}.

Definition listen_8000 : general_arguments :=
  {| dest := "8000"; port := None; p := None; u := false;
     options := no_options |}.

Definition listen_p_8000_localhost_8001 : general_arguments :=
  {| dest := "localhost"; port := Some (PortInt 8001); p := Some 8000;
     u := false; options := no_options |}.

Definition repr_object (v : option port_value) : string :=
  match v with
  | None => "None"
  | Some _ => "<itertools.chain object>"
  end.

Section Parser.

(** Python's [int(text)] and [repr] of a port value that is no integer. *)
Variable py_int : string -> option Z.
Variable repr_port : option port_value -> string.

(** Modelled from the spec: [group_parse_args] of the grouped argument
    parser ([pync/argparsing.py] is not among the sources) on the two
    tokens ['dest', token], read at the [port] attribute of its general
    namespace: the positional goes through the port grammar and the
    port action like any port given on the command line; the outer
    [None] is the exit of the parser on a token the grammar rejects. *)
Definition reparsed_port (token : string) : option (option port_value) :=
  parse_port_tokens py_int [token].

(** [NetcatArgumentParser.parse_args], after the first
    [group_parse_args]. *)
Definition parse_args (args : general_arguments)
    (client_args : client_arguments) (server_args : server_arguments)
    : parse_result :=
  let accept := Parsed {| general := args;
                          selected := if l server_args
                                      then ServerMode server_args
                                      else ClientMode client_args |} in
  let has_dest := truthy_str (dest args) in
  let has_port := given_port (port args) in
  let has_p := given_int (p args) in
  if l server_args then
    (* Server mode. *)
    if has_dest && has_port && negb has_p then accept
    else if has_dest && negb has_port && negb has_p then
      (* pync -l 8000: get the port from args.dest, through the parser *)
      match reparsed_port (dest args) with
      | Some test_port =>
          Parsed {| general := set_dest_port args "" test_port;
                    selected := ServerMode server_args |}
      | None => ParserError
      end
    else if negb has_dest && negb has_port && has_p then accept
    else if has_dest && negb has_port && has_p then accept
    else if has_dest && has_port && has_p then accept
    else UsageExit
  else
    (* Client mode. *)
    if has_dest && has_port then accept
    else if has_dest && has_port && has_p then accept
    else UsageExit.

(** [NetcatServer.__init__]: the address kept for [bind]. *)
Definition NetcatServer (proto : transport) (port : option port_value)
    (dest : string) (kw : kwargs) : server :=
  {| server_transport := proto;
     bind_dest := if String.eqb dest "" then "0.0.0.0" else dest;
     bind_port := match port with
                  | Some (PortInt k) => inl k
                  | other => inr (repr_port other)
                  end;
     server_kwargs := kw |}.

(** [Netcat.__new__] *)
Definition Netcat (dest : string) (port : option port_value) (l u : bool)
    (p : option Z) (kw : kwargs) : netcat :=
  if l then
    let port := match p with
                | Some source => Some (PortInt source)
                | None => port
                end in
    if u then Server (NetcatServer UDP port dest kw)
    else Server (NetcatServer TCP port dest kw)
  else
    if u then Client {| client_transport := UDP; client_dest := dest;
                        client_port := port; source_port := p;
                        client_kwargs := kw |}
    else Client {| client_transport := TCP; client_dest := dest;
                   client_port := port; source_port := p;
                   client_kwargs := kw |}.

(** [Netcat.from_args], once the arguments are parsed: the namespace
    becomes the keyword arguments of the factory. *)
Definition from_namespace (ns : namespace) : netcat :=
  let args := general ns in
  match selected ns with
  | ServerMode server_args =>
      Netcat (dest args) (port args) (l server_args) (u args) (p args)
             {| kw_options := options args; kw_k := Some (k server_args);
                kw_client := None |}
  | ClientMode client_args =>
      Netcat (dest args) (port args) false (u args) (p args)
             {| kw_options := options args; kw_k := None;
                kw_client := Some client_args |}
  end.

(** The address a server binds, if the object is a server. *)
Definition bind_address (nc : netcat) : option (string * (Z + string)) :=
  match nc with
  | Server srv => Some (bind_dest srv, bind_port srv)
  | Client _ => None
  end.

(** C7. In server mode with a [dest] value, no positional port and no
    [-p], [parse_args] reads the [dest] value as the port, through the
    port grammar again (a parser error if the grammar rejects it), and
    empties [dest]; when the value is a single port [k], the server
    built from the result binds all interfaces on port [k]. *)
Theorem listen_dest_is_port (args : general_arguments)
    (client_args : client_arguments) (server_args : server_arguments) :
  l server_args = true -> truthy_str (dest args) = true ->
  port args = None -> p args = None ->
  parse_args args client_args server_args
  = match parse_port_tokens py_int [dest args] with
    | Some test_port =>
        Parsed {| general := set_dest_port args "" test_port;
                  selected := ServerMode server_args |}
    | None => ParserError
    end
  /\ forall k,
       Ports.port py_int (dest args) = Some (mkrange k (k + 1)) ->
       exists ns,
         parse_args args client_args server_args = Parsed ns
         /\ dest (general ns) = ""
         /\ port (general ns) = Some (PortInt k)
         /\ bind_address (from_namespace ns) = Some ("0.0.0.0", inl k).
Proof.
  intros L Hd Hp Hs.
  assert (E : parse_args args client_args server_args
              = match parse_port_tokens py_int [dest args] with
                | Some test_port =>
                    Parsed {| general := set_dest_port args "" test_port;
                              selected := ServerMode server_args |}
                | None => ParserError
                end).
  { unfold parse_args. rewrite L, Hd, Hp, Hs. reflexivity. }
  split; [exact E|].
  intros k Hk. rewrite E. unfold parse_port_tokens. simpl. rewrite Hk.
  simpl. replace (k =? k + 1 - 1) with true
    by (symmetry; apply Z.eqb_eq; lia).
  eexists. split; [reflexivity|]. split; [reflexivity|].
  split; [reflexivity|].
  unfold from_namespace, Netcat, NetcatServer. simpl. rewrite L, Hs.
  destruct (u args); reflexivity.
Qed.

(** C10. With [l] set and a source port [p] supplied, the factory
    builds a server (UDP if [u], else TCP) that binds port [p], whatever
    the positional port was; so the command line with [dest], [port] and
    [-p] all given, which [parse_args] accepts in server mode, gives a
    server on [dest] and the port of [-p]. *)
Theorem listen_source_port_wins (dest0 : string)
    (port0 : option port_value) (u0 : bool) (source : Z) (kw : kwargs) :
  Netcat dest0 port0 true u0 (Some source) kw
  = Server {| server_transport := if u0 then UDP else TCP;
              bind_dest := if String.eqb dest0 "" then "0.0.0.0" else dest0;
              bind_port := inl source;
              server_kwargs := kw |}
  /\ forall (args : general_arguments) (client_args : client_arguments)
            (server_args : server_arguments),
       l server_args = true -> truthy_str (dest args) = true ->
       given_port (port args) = true ->
       p args = Some source -> truthy_int source = true ->
       parse_args args client_args server_args
       = Parsed {| general := args; selected := ServerMode server_args |}
       /\ bind_address
            (from_namespace {| general := args;
                               selected := ServerMode server_args |})
          = Some (dest args, inl source).
Proof.
  split.
  - unfold Netcat, NetcatServer. destruct u0; reflexivity.
  - intros args client_args server_args L Hd Hp Hs Ht. split.
    + unfold parse_args. rewrite L, Hd, Hp, Hs. simpl. rewrite Ht.
      reflexivity.
    + unfold from_namespace. simpl. rewrite L, Hs.
      unfold Netcat, NetcatServer.
      assert (N : String.eqb (dest args) "" = false)
        by (destruct (dest args); [discriminate | reflexivity]).
      destruct (u args); simpl; rewrite N; reflexivity.
Qed.

End Parser.

(** Testable property 7. *)
Example listen_8000_binds_wildcard :
  option_map (fun ns => bind_address (from_namespace repr_object ns))
    (match parse_args decimal_int listen_8000 no_client_arguments
                      {| k := false; l := true |} with
     | Parsed ns => Some ns
     | _ => None
     end)
  = Some (Some ("0.0.0.0", inl 8000)).
Proof. reflexivity. Qed.

Example listen_on_a_name_is_rejected :
  parse_args decimal_int
             {| dest := "localhost"; port := None; p := None; u := false;
                options := no_options |}
             no_client_arguments {| k := false; l := true |}
  = ParserError.
Proof. reflexivity. Qed.

Lemma listen_dest_is_port_witness :
  exists ns,
    parse_args decimal_int listen_8000 no_client_arguments
               {| k := false; l := true |} = Parsed ns
    /\ dest (general ns) = ""
    /\ port (general ns) = Some (PortInt 8000)
    /\ bind_address (from_namespace repr_object ns)
       = Some ("0.0.0.0", inl 8000).
Proof.
  apply (proj2 (listen_dest_is_port decimal_int repr_object listen_8000
                  no_client_arguments {| k := false; l := true |}
                  eq_refl eq_refl eq_refl eq_refl) 8000).
  reflexivity.
Defined.

Lemma listen_source_port_wins_witness :
  parse_args decimal_int listen_p_8000_localhost_8001 no_client_arguments
             {| k := false; l := true |}
  = Parsed {| general := listen_p_8000_localhost_8001;
              selected := ServerMode {| k := false; l := true |} |}
  /\ bind_address
       (from_namespace repr_object
          {| general := listen_p_8000_localhost_8001;
             selected := ServerMode {| k := false; l := true |} |})
     = Some ("localhost", inl 8000).
Proof.
  apply (proj2 (listen_source_port_wins decimal_int repr_object "" None false 8000
                  {| kw_options := no_options; kw_k := None;
                     kw_client := None |})
               listen_p_8000_localhost_8001 no_client_arguments
               {| k := false; l := true |}); reflexivity.
Defined.

(** Testable property 9: the four objects of the factory. *)
Example factory_objects :
  let kw := {| kw_options := no_options; kw_k := None; kw_client := None |} in
  let kind nc := match nc with
                 | Server srv => (true, server_transport srv)
                 | Client cli => (false, client_transport cli)
                 end in
  map kind [Netcat repr_object "h" (Some (PortInt 1)) true true None kw;
            Netcat repr_object "h" (Some (PortInt 1)) false false None kw;
            Netcat repr_object "h" (Some (PortInt 1)) true false None kw;
            Netcat repr_object "h" (Some (PortInt 1)) false true None kw]
  = [(true, UDP); (false, TCP); (true, TCP); (false, UDP)].
Proof. reflexivity. Qed.

End Cli.

(** ** The entry point: [pync] *)

Module Pync.
Import Py Exec.
Local Open Scope exec_scope.

(** What argparse makes of the command line before [parse_args] looks
    at the groups: a help request, an argument it rejects, or the three
    namespaces. *)
Inductive argparse_outcome : Type :=
| HelpRequested
| ArgumentError
| Grouped (args : Cli.general_arguments)
          (client_args : Cli.client_arguments)
          (server_args : Cli.server_arguments).

(** [errno.ECONNRESET] *)
Definition ECONNRESET : Z := 104.

(** [exit.status = 1], before the [try]. *)
Definition started (w : world) : world :=
  {| trace := trace w; exit_status := 1; sockets := sockets w |}.

(** [PyncArgumentParser.print_help]: the help text goes to the output
    stream, then [exit.status = 0]. *)
Definition print_help : M unit := set_status 0.

(** [PyncTCPServer._listening] and [PyncUDPServer._listening]: the
    verbose line of the server, then [exit.status = 0]. *)
Definition v_listening (dest family port : string) : string :=
  "Listening on [" ++ dest ++ "] (family " ++ family ++ ", port " ++ port
    ++ ")".

Definition _listening (v : bool) (dest family port : string) : M unit :=
  print_verbose v (v_listening dest family port) ;;
  set_status 0.

(** What [conn.readwrite()] is to the caller of the relay loop. *)
Definition relay (r : Relay.run) : M unit :=
  match r with
  | Relay.Raised e _ => raise e
  | _ => ret tt
  end.

(** A connection whose peer resets it while the relay sends: the loop
    lets the error through, and so does [pync]. *)
Definition reset_while_sending : Relay.run :=
  Relay.readwrite Relay.defaults Relay.fresh_streams 100
    [{| Relay.net_in := Relay.RecvValue None;
        Relay.std_in := Relay.ReadValue (Some [x68; x69]);
        Relay.net_out := Relay.SendRaise ECONNRESET;
        Relay.t_recv := 101; Relay.t_send := 101; Relay.t_eof := 101;
        Relay.t_quit := 101; Relay.t_idle := 101 |}].

Section Run.

Variable py_int : string -> option Z.
Variable repr_port : option Ports.port_value -> string.
Variable py_repr : string -> string.
Variable getservbyport : Z -> string -> option string.

Definition is_help (o : argparse_outcome) : bool :=
  match o with HelpRequested => true | _ => false end.

(** The command lines on which the parser exits. *)
Definition parser_exits (o : argparse_outcome) : bool :=
  match o with
  | HelpRequested | ArgumentError => true
  | Grouped args client_args server_args =>
      match Cli.parse_args py_int args client_args server_args with
      | Cli.Parsed _ => false
      | _ => true
      end
  end.

(** [PyncNetcat.from_args(args)]: the help action prints and exits, an
    error or a usage violation exits, otherwise the factory is called. *)
Definition from_args (o : argparse_outcome) : M Cli.netcat :=
  match o with
  | HelpRequested => print_help ;; raise SystemExit
  | ArgumentError => raise SystemExit
  | Grouped args client_args server_args =>
      match Cli.parse_args py_int args client_args server_args with
      | Cli.Parsed ns => ret (Cli.from_namespace repr_port ns)
      | Cli.UsageExit => raise SystemExit
      | Cli.ParserError => raise SystemExit
      end
  end.

(** [pync]: [body] is what runs inside the [try]. *)
Definition pync (body : M unit) : M Z :=
  fun w =>
    match body (started w) with
    | (inl _, w') => (inl (exit_status w'), w')
    | (inr (NetcatError _ msg), w') =>
        (inl 1,
         {| trace := (trace w' ++ [Wrote ("pync: " ++ msg ++ newline)])%list;
            exit_status := 1; sockets := sockets w' |})
    | (inr KeyboardInterrupt, w') =>
        (inl 130,
         {| trace := (trace w' ++ [Wrote newline])%list;
            exit_status := 130; sockets := sockets w' |})
    | (inr SystemExit, w') => (inl (exit_status w'), w')
    | (inr e, w') => (inr e, w')
    end.

(** The exceptions [pync] has a handler for. *)
Definition handled (e : exn) : bool :=
  match e with
  | NetcatError _ _ | KeyboardInterrupt | SystemExit => true
  | _ => false
  end.

(** A client class of [pync] reaches status 0 exactly when some port
    accepted. *)
Lemma status_after_success cls c ports status :
  Client.marks_success cls = true ->
  Client.no_fatal py_int py_repr c ports ->
  Client.status_after py_int py_repr cls c status ports
  = match Client.accepting py_int py_repr c ports with
    | [] => status
    | _ :: _ => 0
    end.
Proof.
  intros M NF. revert status. unfold Client.accepting.
  induction NF as [|[p a] rest H _ IH]; intros status; simpl; [reflexivity|].
  simpl in H. destruct (Client.verdict_of py_int py_repr c p a) as [| |e].
  - rewrite M, IH. simpl.
    destruct (map fst (filter _ rest)); reflexivity.
  - apply IH.
  - exfalso. apply (H e). reflexivity.
Qed.

(** C6, as the code has it.  The status is 1 when the run starts and
    becomes 0 when help is printed, when a server reports that it
    listens and when a client connection succeeds.  A run that ends
    normally returns the status reached; a structured library error
    writes "pync: <message>" to the error stream and returns 1; a user
    interrupt writes a blank line and returns 130; an exit of the parser
    returns the status reached, which is 0 for help and 1 otherwise.
    Any other exception is not caught: it reaches the caller. *)
Theorem pync_exit_status (body : M unit) (w : world) :
  (forall w', body (started w) = (inl tt, w') ->
     pync body w = (inl (exit_status w'), w'))
  /\ (forall kind msg w', body (started w) = (inr (NetcatError kind msg), w') ->
        pync body w
        = (inl 1,
           {| trace := (trace w' ++ [Wrote ("pync: " ++ msg ++ newline)])%list;
              exit_status := 1; sockets := sockets w' |}))
  /\ (forall w', body (started w) = (inr KeyboardInterrupt, w') ->
        pync body w
        = (inl 130,
           {| trace := (trace w' ++ [Wrote newline])%list;
              exit_status := 130; sockets := sockets w' |}))
  /\ (forall w', body (started w) = (inr SystemExit, w') ->
        pync body w = (inl (exit_status w'), w'))
  /\ (forall e w', body (started w) = (inr e, w') -> handled e = false ->
        pync body w = (inr e, w'))
  /\ exit_status (started w) = 1
  /\ (forall w0, exit_status (snd (print_help w0)) = 0)
  /\ (forall v dest family port w0,
        exit_status (snd (_listening v dest family port w0)) = 0)
  /\ (forall cls c p w0, Client.marks_success cls = true ->
        exit_status (snd (Client._conn_succeeded getservbyport cls c p w0)) = 0)
  /\ (forall o run, parser_exits o = true ->
        fst (pync (nc <- from_args o ;; run nc) w)
        = inl (if is_help o then 0 else 1))
  /\ (forall cls c who ports,
        Client.marks_success cls = true ->
        Client.no_fatal py_int py_repr c ports ->
        fst (pync (Client.iter_connections py_int py_repr getservbyport cls c
                     (Client.use who) ports) w)
        = inl (match Client.accepting py_int py_repr c ports with
               | [] => 1
               | _ :: _ => 0
               end)).
Proof.
  repeat split.
  - intros w' B. unfold pync. rewrite B. reflexivity.
  - intros kind msg w' B. unfold pync. rewrite B. reflexivity.
  - intros w' B. unfold pync. rewrite B. reflexivity.
  - intros w' B. unfold pync. rewrite B. reflexivity.
  - intros e w' B H. unfold pync. rewrite B.
    destruct e; try discriminate H; reflexivity.
  - intros v dest family port w0. unfold _listening, bind, print_verbose.
    destruct v; [|reflexivity].
    unfold _print_message. destruct (truthy_str _); reflexivity.
  - intros cls c p w0 M. unfold Client._conn_succeeded, bind, print_verbose.
    rewrite M. destruct (Client.v c); [|reflexivity].
    unfold _print_message. destruct (truthy_str _); reflexivity.
  - intros o run E. unfold pync, bind, from_args.
    destruct o as [| |args client_args server_args]; simpl; try reflexivity.
    simpl in E.
    destruct (Cli.parse_args py_int args client_args server_args);
      [discriminate | reflexivity | reflexivity].
  - intros cls c who ports M NF. unfold pync.
    rewrite Client.iter_connections_run.
    rewrite (Client.events_of_outcome py_int py_repr c ports NF).
    simpl. rewrite status_after_success by assumption. reflexivity.
Qed.

End Run.

(** The loop lets the reset through, and so does [pync]. *)
Example relay_lets_reset_through :
  reset_while_sending = Relay.Raised (OSError ECONNRESET) Relay.fresh_streams.
Proof. reflexivity. Qed.

Lemma pync_lets_reset_through :
  let body :=
    Client.iter_connections decimal_int Client.quoted Client.no_services
      Client.PyncTCPClient (Client.localhost false false)
      (fun _ => relay reset_while_sending) [(8000, Client.Connects)] in
  fst (pync body Client.blank) = inr (OSError ECONNRESET)
  /\ forall status : Z, fst (pync body Client.blank) <> inl status.
Proof. split; [reflexivity | intros status; discriminate]. Qed.

(** The paths of the specification on small runs. *)
Example pync_help_returns_0 :
  fst (pync (nc <- from_args decimal_int Cli.repr_object HelpRequested ;;
             ret tt) Client.blank)
  = inl 0.
Proof. reflexivity. Qed.

Example pync_usage_returns_1 :
  fst (pync (nc <- from_args decimal_int Cli.repr_object
                     (Grouped {| Cli.dest := ""; Cli.port := None;
                                 Cli.p := None; Cli.u := false;
                                 Cli.options := Cli.no_options |}
                              Cli.no_client_arguments
                              {| Cli.k := false; Cli.l := false |}) ;;
             ret tt) Client.blank)
  = inl 1.
Proof. reflexivity. Qed.

Example pync_refused_returns_1 :
  pync (Client.iter_connections decimal_int Client.quoted Client.no_services
          Client.PyncTCPClient (Client.localhost true false)
          (Client.use (Client.mkCaller false))
          [(8000, Client.RaisesConnectionRefused)]) Client.blank
  = (inl 1,
     {| trace := [Wrote ("pync: connect to localhost port 8000 (tcp) failed: Connection refused"
                           ++ newline)];
        exit_status := 1; sockets := 0 |}).
Proof. reflexivity. Qed.

Example pync_error_after_success_returns_1 :
  pync (Client.iter_connections decimal_int Client.quoted Client.no_services
          Client.PyncTCPClient (Client.localhost false false)
          (Client.use (Client.mkCaller false))
          [(8000, Client.Connects);
           (8001, Client.RaisesSocketError 113 "No route to host")])
       Client.blank
  = (inl 1,
     {| trace := [Yielded {| net := 0; port := 8000 |}; Closed 0;
                  Wrote ("pync: No route to host" ++ newline)];
        exit_status := 1; sockets := 1 |}).
Proof. reflexivity. Qed.

Lemma pync_exit_status_witness :
  fst (pync (Client.iter_connections decimal_int Client.quoted
               Client.no_services Client.PyncTCPClient
               (Client.localhost true false)
               (Client.use (Client.mkCaller false))
               [(8000, Client.RaisesConnectionRefused);
                (8001, Client.Connects)]) Client.blank)
  = inl 0.
Proof.
  destruct (pync_exit_status decimal_int Cli.repr_object Client.quoted
              Client.no_services (ret tt) Client.blank)
    as (_ & _ & _ & _ & _ & _ & _ & _ & _ & _ & H).
  apply (H Client.PyncTCPClient (Client.localhost true false)
           (Client.mkCaller false)
           [(8000, Client.RaisesConnectionRefused); (8001, Client.Connects)]).
  - reflexivity.
  - repeat constructor; intros e; discriminate.
Defined.

End Pync.

(** ** The readers of the process wrappers: [pync/process.py] *)

Module Process.
Import Py.

Definition bytes : Type := list byte.

(** What a read gives its caller: bytes, [None], or an exception. *)
Definition result : Type := (option bytes + exn)%type.

(** *** The spawned command: [_ProcStdout] *)

(** The parent's side of a spawned command: the bytes of its output
    buffered in the pipe and what [poll()] returns, [None] while the
    command runs. *)
Record spawned : Type := mkSpawned {
  buffered : bytes;
  returncode : option Z
}.

(** Modelled from the spec: the read end of the non-blocking pipe pair
    ([pync/pipe.py] is not among the sources).  A read never blocks: it
    returns the buffered bytes, at most [n] of them (all of them for a
    negative [n]), and [None] when nothing is buffered. *)
Definition pipe_read (n : Z) (buffer : bytes) : option bytes * bytes :=
  match buffer with
  | [] => (None, [])
  | _ :: _ =>
      if n <? 0 then (Some buffer, [])
      else (Some (firstn (Z.to_nat n) buffer), skipn (Z.to_nat n) buffer)
  end.

(** [_ProcStdout.read] *)
Definition _ProcStdout_read (n : Z) (st : spawned) : result * spawned :=
  let '(data, rest) := pipe_read n (buffered st) in
  let st' := {| buffered := rest; returncode := returncode st |} in
  match data with
  | Some ((_ :: _) as data) => (inl (Some data), st')
  | _ =>
      match returncode st with
      | Some _ => (inr ProcessTerminated, st')
      | None => (inl None, st')
      end
  end.

(** *** The interpreted code: [PythonStdoutReader] *)

(** The parent's side of the process that runs the code: the messages
    waiting in the connection, whether the writing end is closed, and
    whether the process is alive. *)
Record piped : Type := mkPiped {
  messages : list bytes;
  writer_closed : bool;
  alive : bool
}.

(** [self._conn.poll()]: something to receive, or end of file. *)
Definition poll (st : piped) : bool :=
  match messages st with
  | [] => writer_closed st
  | _ :: _ => true
  end.

(** [PythonStdoutReader.read] *)
Definition PythonStdoutReader_read (st : piped) : result * piped :=
  let after :=
    if negb (alive st) then (inr ProcessTerminated, st) else (inl None, st) in
  if poll st then
    match messages st with
    | data :: rest =>
        (inl (Some data),
         {| messages := rest; writer_closed := writer_closed st;
            alive := alive st |})
    | [] => after     (* except EOFError: pass *)
    end
  else after.

(** *** Reading until the end *)

(** The chunks that [fuel] reads in a row return, up to the first
    exception, with that exception if one was raised. *)
Fixpoint drain {S : Type} (read : S -> result * S) (fuel : nat) (st : S)
    : list bytes * option exn :=
  match fuel with
  | O => ([], None)
  | Datatypes.S fuel' =>
      match read st with
      | (inl (Some data), st') =>
          let '(chunks, e) := drain read fuel' st' in (data :: chunks, e)
      | (inl None, st') => drain read fuel' st'
      | (inr e, _) => ([], Some e)
      end
  end.

(** A command that has exited with two bytes left
    in its pipe. *)
Definition exited_with_two_bytes : spawned :=
  {| buffered := [x6f; x6b]; returncode := Some 0 |}.






(** Testable property 10. *)
Example drained_then_terminated :
  drain (_ProcStdout_read 2048) 3 exited_with_two_bytes
  = ([[x6f; x6b]], Some ProcessTerminated).
Proof. reflexivity. Qed.

Example running_and_silent :
  _ProcStdout_read 2048 {| buffered := []; returncode := None |}
  = (inl None, {| buffered := []; returncode := None |}).
Proof. reflexivity. Qed.


End Process.

(** * Further properties of the code *)

(** ** What a parsed port value contains *)

Module PortFacts.
Import Py Ports.

(** The ranges of a list that contain a port. *)
Definition covers (p : Z) (r : range) : bool :=
  (start r <=? p) && (p <? stop r).

Section Grammar.

Variable py_int : string -> option Z.

(** A converted token is a non-empty range inside the port space. *)
Lemma port_range_bounds (tok : string) (r : range) :
  port py_int tok = Some r ->
  1 <= start r /\ start r < stop r /\ stop r <= 65536.
Proof.
  intros H. apply port_denotes in H.
  destruct H as [k _ _ [L U] | s e _ [Ls Us] [Le Ue]]; simpl; lia.
Qed.

Lemma range_items_in (r : range) (p : Z) :
  In p (range_items r) <-> start r <= p < stop r.
Proof.
  unfold range_items. rewrite in_map_iff. split.
  - intros (k & E & I). apply in_seq in I. lia.
  - intros H. exists (Z.to_nat (p - start r)). split; [lia|].
    apply in_seq. lia.
Qed.

Lemma range_items_NoDup (r : range) : NoDup (range_items r).
Proof.
  unfold range_items. apply Finite.Injective_map_NoDup.
  - intros a b H. lia.
  - apply seq_NoDup.
Qed.

Lemma range_items_count (r : range) (p : Z) :
  count_occ Z.eq_dec (range_items r) p = if covers p r then 1%nat else 0%nat.
Proof.
  unfold covers.
  destruct (Z.leb_spec (start r) p), (Z.ltb_spec p (stop r)); simpl;
    try (apply count_occ_not_In; rewrite range_items_in; lia).
  apply NoDup_count_occ'; [apply range_items_NoDup|].
  apply range_items_in. lia.
Qed.

Lemma chain_count (rs : list range) (p : Z) :
  count_occ Z.eq_dec (chain rs) p = List.length (filter (covers p) rs).
Proof.
  unfold chain. induction rs as [|r rs IH]; simpl; [reflexivity|].
  rewrite count_occ_app, IH, range_items_count.
  destruct (covers p r); reflexivity.
Qed.

Lemma chain_perm (rs rs' : list range) :
  Permutation rs rs' -> Permutation (chain rs) (chain rs').
Proof.
  intros P. unfold chain. rewrite <- !flat_map_concat_map.
  apply Permutation_flat_map. exact P.
Qed.

Lemma filter_length_perm (f : range -> bool) (rs rs' : list range) :
  Permutation rs rs' ->
  List.length (filter f rs) = List.length (filter f rs').
Proof.
  intros P. induction P; simpl; try destruct (f x); try destruct (f y);
    simpl; congruence.
Qed.

Lemma convert_tokens_ranges (tokens : list string) (rs : list range) :
  convert_tokens py_int tokens = Some rs ->
  Forall (fun r => 1 <= start r /\ start r < stop r /\ stop r <= 65536) rs.
Proof.
  revert rs. induction tokens as [|t ts IH]; intros rs H; simpl in H.
  - inversion H. constructor.
  - destruct (port py_int t) as [r|] eqn:P; [|discriminate].
    destruct (convert_tokens py_int ts) as [rs'|]; [|discriminate].
    inversion H. constructor.
    + apply (port_range_bounds t). exact P.
    + apply IH. reflexivity.
Qed.

(** The sort leaves alone a list that is already in order: ranges of
    equal start keep the order of the command line. *)
Lemma insert_by_start_front (r : range) (l : list range) :
  Forall (fun y => start r <= start y) l -> insert_by_start r l = r :: l.
Proof.
  intros F. destruct l as [|y ys]; simpl; [reflexivity|].
  inversion F. subst.
  destruct (Z.leb_spec (start r) (start y)); [reflexivity | lia].
Qed.

Lemma sorted_by_start_fixed (l : list range) :
  ascending_starts l -> sorted_by_start l = l.
Proof.
  unfold ascending_starts. induction 1 as [|r l S IH F]; simpl;
    [reflexivity|].
  rewrite IH. apply insert_by_start_front. exact F.
Qed.

(** X1.  Every port of a parsed value is a port: the plain integer, and
    each member of the chain, lies in 1-65535, and the chain is never
    empty. *)
Theorem parsed_ports_in_space (tokens : list string) (v : port_value) :
  parse_port_tokens py_int tokens = Some (Some v) ->
  match v with
  | PortInt k => in_port_space k
  | PortChain ports => Forall in_port_space ports /\ ports <> []
  end.
Proof.
  unfold parse_port_tokens.
  destruct (convert_tokens py_int tokens) as [rs|] eqn:E; [|discriminate].
  pose proof (convert_tokens_ranges tokens rs E) as F.
  unfold NetcatPortAction. destruct rs as [|first rest]; [discriminate|].
  destruct (_ && _).
  - intros H. inversion H. inversion F. subst. unfold in_port_space. lia.
  - intros H. inversion H. clear H.
    change (insert_by_start first (sorted_by_start rest))
      with (sorted_by_start (first :: rest)).
    split.
    + apply Forall_forall. intros p I.
      apply (Permutation_in p (chain_perm _ _ (sorted_by_start_perm _))) in I.
      unfold chain in I. apply in_concat in I.
      destruct I as (items & I1 & I2). apply in_map_iff in I1.
      destruct I1 as (r & Er & Ir). subst items.
      apply range_items_in in I2.
      rewrite Forall_forall in F. specialize (F r Ir).
      unfold in_port_space. lia.
    + intros N.
      assert (I : In (start first) (chain (sorted_by_start (first :: rest)))).
      { apply (Permutation_in _ (Permutation_sym
                 (chain_perm _ _ (sorted_by_start_perm (first :: rest))))).
        unfold chain. simpl. apply in_or_app. left.
        apply range_items_in. inversion F. lia. }
      rewrite N in I. exact I.
Qed.

(** X2.  Ranges are neither merged nor deduplicated: a port occurs in the
    chain once for every token whose range contains it. *)
Theorem chained_ports_multiplicity (tokens : list string)
    (rs : list range) (ports : list Z) (p : Z) :
  convert_tokens py_int tokens = Some rs ->
  parse_port_tokens py_int tokens = Some (Some (PortChain ports)) ->
  count_occ Z.eq_dec ports p = List.length (filter (covers p) rs).
Proof.
  intros E. unfold parse_port_tokens. rewrite E.
  unfold NetcatPortAction. destruct rs as [|first rest]; [discriminate|].
  destruct (_ && _); [discriminate|].
  intros H. inversion H.
  change (insert_by_start first (sorted_by_start rest))
    with (sorted_by_start (first :: rest)).
  rewrite chain_count.
  apply filter_length_perm. apply sorted_by_start_perm.
Qed.

(** X3.  Port tokens given in ascending order of their starts are dialled
    in the order given. *)
Theorem ascending_tokens_keep_order (tokens : list string)
    (rs : list range) (ports : list Z) :
  convert_tokens py_int tokens = Some rs ->
  ascending_starts rs ->
  parse_port_tokens py_int tokens = Some (Some (PortChain ports)) ->
  ports = List.concat (map range_items rs).
Proof.
  intros E A. unfold parse_port_tokens. rewrite E.
  unfold NetcatPortAction. destruct rs as [|first rest]; [discriminate|].
  destruct (_ && _); [discriminate|].
  intros H. inversion H.
  change (insert_by_start first (sorted_by_start rest))
    with (sorted_by_start (first :: rest)).
  rewrite (sorted_by_start_fixed _ A). reflexivity.
Qed.

End Grammar.

Lemma parsed_ports_in_space_witness :
  Forall in_port_space [8000; 8001; 9000] /\ [8000; 8001; 9000] <> [].
Proof.
  exact (parsed_ports_in_space decimal_int ["9000"; "8000-8001"]
           (PortChain [8000; 8001; 9000]) eq_refl).
Defined.

Lemma chained_ports_multiplicity_witness :
  count_occ Z.eq_dec [1; 2; 3; 4; 5; 3; 4] 3 = 2%nat.
Proof.
  exact (chained_ports_multiplicity decimal_int ["3-4"; "1-5"]
           [mkrange 3 5; mkrange 1 6] [1; 2; 3; 4; 5; 3; 4] 3
           eq_refl eq_refl).
Defined.

Lemma ascending_tokens_keep_order_witness :
  [5; 6; 7; 5; 6] = List.concat (map range_items [mkrange 5 8; mkrange 5 7]).
Proof.
  apply (ascending_tokens_keep_order decimal_int ["5-7"; "5-6"]
           [mkrange 5 8; mkrange 5 7] [5; 6; 7; 5; 6] eq_refl).
  - repeat constructor; simpl; lia.
  - reflexivity.
Defined.

End PortFacts.

(** ** The argument types and the socket options *)

Module Options.
Import Py Ports.

(** [TOSKEYWORDS] *)
Definition TOSKEYWORDS : list (string * Z) :=
  [("af11", 40); ("af12", 48); ("af21", 56); ("af22", 80); ("af23", 88);
   ("af31", 104); ("af32", 112); ("af33", 120); ("af41", 136);
   ("af42", 144); ("af43", 152); ("critical", 160); ("cs0", 0);
   ("cs1", 32); ("cs2", 64); ("cs3", 96); ("cs4", 128); ("cs5", 160);
   ("cs6", 192); ("cs7", 224); ("ef", 184); ("inetcontrol", 192);
   ("lowcost", 2); ("lowdelay", 16); ("netcontrol", 224);
   ("reliability", 4); ("throughput", 8)].

(** [table[key]], [None] when [key not in table]. *)
Fixpoint lookup (key : string) (table : list (string * Z)) : option Z :=
  match table with
  | [] => None
  | (name, value) :: rest =>
      if String.eqb key name then Some value else lookup key rest
  end.

(** The calls of [setsockopt]: level, option name, value. *)
Inductive level : Type := SOL_SOCKET | IPPROTO_TCP | IPPROTO_IP.

Inductive optname : Type :=
| SO_REUSEADDR | SO_BROADCAST | SO_DEBUG | IP_TOS | SO_RCVBUF | SO_SNDBUF.

(** The attributes [_set_common_sockopts] reads.  [T] is an integer
    when it comes from the parser and may be a keyword when the class
    is used as a library. *)
Record sockopts : Type := mkSockopts {
  allow_reuse_port : bool;
  b : bool;
  D : bool;
  T : option (Z + string);
  I : option Z;
  O : option Z
}.

Definition truthy_tos (t : option (Z + string)) : bool :=
  match t with
  | None => false
  | Some (inl k) => truthy_int k
  | Some (inr name) => truthy_str name
  end.

Section Types.

(** Python's [int(text)] and [int(text, 16)]. *)
Variable py_int : string -> option Z.
Variable py_int16 : string -> option Z.

(** [NetcatArgumentParser.timeout] *)
Definition timeout (value : string) : option Z :=
  match py_int value with
  | Some k => if k <? 0 then None else Some k
  | None => None
  end.

(** [NetcatArgumentParser.source_port] *)
Definition source_port (value : string) : option Z :=
  match py_int value with
  | Some k => if _valid_port k then Some k else None
  | None => None
  end.

(** [NetcatArgumentParser.toskeyword] *)
Definition toskeyword (value : string) : option Z :=
  match lookup value TOSKEYWORDS with
  | Some k => Some k
  | None =>
      let parsed := match py_int value with
                    | Some k => Some k
                    | None => py_int16 value   (* value might be a hex number *)
                    end in
      match parsed with
      | Some k => if (0 <=? k) && (k <=? 255) then Some k else None
      | None => None
      end
  end.

(** The [tos] property of [NetcatIterator]; no key of the table is an
    integer, and [int] of an integer is that integer. *)
Definition tos (t : Z + string) : option Z :=
  match t with
  | inl k => Some k
  | inr name =>
      match lookup name TOSKEYWORDS with
      | Some k => Some k
      | None => py_int name
      end
  end.

(** [_set_common_sockopts]: the calls made on the socket, in order;
    [None] when [self.tos] raises. *)
Definition size_call (name : optname) (size : option Z)
    : list (level * optname * Z) :=
  match size with
  | Some k => if truthy_int k then [(SOL_SOCKET, name, k)] else []
  | None => []
  end.

Definition tos_call (t : option (Z + string))
    : option (list (level * optname * Z)) :=
  if truthy_tos t then
    match t with
    | Some value =>
        match tos value with
        | Some k => Some [(IPPROTO_IP, IP_TOS, k)]
        | None => None
        end
    | None => Some []
    end
  else Some [].

Definition _set_common_sockopts (o : sockopts)
    : option (list (level * optname * Z)) :=
  match tos_call (T o) with
  | Some tos_calls =>
      Some ((if allow_reuse_port o then [(SOL_SOCKET, SO_REUSEADDR, 1)]
             else [])
              ++ (if b o then [(IPPROTO_TCP, SO_BROADCAST, 1)] else [])
              ++ (if D o then [(SOL_SOCKET, SO_DEBUG, 1)] else [])
              ++ tos_calls
              ++ size_call SO_RCVBUF (I o)
              ++ size_call SO_SNDBUF (O o))%list
  | None => None
  end.

(** The options of a socket when [-T value] was given and nothing else. *)
Definition only_tos (t : Z + string) : sockopts :=
  {| allow_reuse_port := false; b := false; D := false; T := Some t;
     I := None; O := None |}.

Lemma lookup_in (key : string) (table : list (string * Z)) (k : Z) :
  lookup key table = Some k -> In (key, k) table.
Proof.
  induction table as [|[name value] rest IH]; simpl; [discriminate|].
  destruct (String.eqb_spec key name) as [E|E].
  - intros H. inversion H. subst. left. reflexivity.
  - intros H. right. apply IH. exact H.
Qed.

Lemma TOSKEYWORDS_bytes :
  Forall (fun entry => 0 <= snd entry <= 255) TOSKEYWORDS.
Proof. unfold TOSKEYWORDS. repeat constructor; simpl; lia. Qed.

(** X4.  Whatever [-T] accepts is a byte: a keyword gives its table value
    without any reading of integers, any other text is read in decimal
    and then in hexadecimal and rejected outside 0-255; and the [tos]
    property leaves an accepted value as it is. *)
Theorem toskeyword_is_a_byte (value : string) (k : Z) :
  toskeyword value = Some k ->
  0 <= k <= 255
  /\ tos (inl k) = Some k
  /\ (forall table_value, lookup value TOSKEYWORDS = Some table_value ->
        k = table_value /\ tos (inr value) = Some k).
Proof.
  unfold toskeyword. intros H. split; [|split].
  - destruct (lookup value TOSKEYWORDS) as [t|] eqn:L.
    + inversion H. subst t. apply lookup_in in L.
      pose proof TOSKEYWORDS_bytes as F. rewrite Forall_forall in F.
      apply (F (value, k) L).
    + destruct (match py_int value with
                | Some k0 => Some k0
                | None => py_int16 value
                end) as [parsed|]; [|discriminate].
      destruct (Z.leb_spec 0 parsed), (Z.leb_spec parsed 255);
        simpl in H; try discriminate. inversion H. lia.
  - reflexivity.
  - intros t L. rewrite L in H. inversion H. subst t.
    split; [reflexivity|]. unfold tos. rewrite L. reflexivity.
Qed.

Lemma size_call_in (name : optname) (size : option Z)
    (c : level * optname * Z) :
  In c (size_call name size) ->
  exists k, c = (SOL_SOCKET, name, k) /\ size = Some k /\ k <> 0.
Proof.
  unfold size_call, truthy_int. destruct size as [k|]; [|intros []].
  destruct (Z.eqb_spec k 0); simpl; [intros []|].
  intros [E|[]]. exists k. auto.
Qed.

Lemma tos_call_in (t : option (Z + string))
    (calls : list (level * optname * Z)) (c : level * optname * Z) :
  tos_call t = Some calls -> In c calls ->
  exists value k, t = Some value /\ tos value = Some k
                  /\ truthy_tos t = true /\ c = (IPPROTO_IP, IP_TOS, k).
Proof.
  unfold tos_call. destruct (truthy_tos t) eqn:Tr.
  - destruct t as [value|]; [|intros H; inversion H; intros []].
    destruct (tos value) as [k|] eqn:E; [|discriminate].
    intros H. inversion H. intros [I|[]]. exists value, k. auto.
  - intros H. inversion H. intros [].
Qed.

(** X5.  A value of zero is never applied: no call sets a buffer size of
    zero, and [IP_TOS] is set to zero only when [T] is a keyword given
    to the class itself; the parser turns [-T cs0] into the integer 0,
    which sets nothing.  Broadcast is asked for at the level of TCP,
    never at the level of the socket. *)
Theorem zero_options_not_applied (o : sockopts)
    (calls : list (level * optname * Z)) :
  _set_common_sockopts o = Some calls ->
  ~ In (SOL_SOCKET, SO_RCVBUF, 0) calls
  /\ ~ In (SOL_SOCKET, SO_SNDBUF, 0) calls
  /\ (In (IPPROTO_IP, IP_TOS, 0) calls -> exists name, T o = Some (inr name))
  /\ (forall v, ~ In (SOL_SOCKET, SO_BROADCAST, v) calls)
  /\ toskeyword "cs0" = Some 0
  /\ _set_common_sockopts (only_tos (inl 0)) = Some []
  /\ _set_common_sockopts (only_tos (inr "cs0"))
     = Some [(IPPROTO_IP, IP_TOS, 0)].
Proof.
  unfold _set_common_sockopts.
  destruct (tos_call (T o)) as [tos_calls|] eqn:E; [|discriminate].
  intros H. injection H as Hc.
  assert (S : forall c,
             In c calls ->
             c = (SOL_SOCKET, SO_REUSEADDR, 1)
             \/ c = (IPPROTO_TCP, SO_BROADCAST, 1)
             \/ c = (SOL_SOCKET, SO_DEBUG, 1)
             \/ In c tos_calls
             \/ In c (size_call SO_RCVBUF (I o))
             \/ In c (size_call SO_SNDBUF (O o))).
  { intros c. rewrite <- Hc, !in_app_iff.
    destruct (allow_reuse_port o), (b o), (D o); simpl;
      intuition (subst; auto 10). }
  repeat split.
  - intros HI. apply S in HI.
    destruct HI as [HI|[HI|[HI|[HI|[HI|HI]]]]]; try discriminate.
    + destruct (tos_call_in _ _ _ E HI) as (? & ? & _ & _ & _ & C).
      discriminate.
    + destruct (size_call_in _ _ _ HI) as (k & C & _ & N).
      inversion C. subst. apply N. reflexivity.
    + destruct (size_call_in _ _ _ HI) as (k & C & _ & N). discriminate.
  - intros HI. apply S in HI.
    destruct HI as [HI|[HI|[HI|[HI|[HI|HI]]]]]; try discriminate.
    + destruct (tos_call_in _ _ _ E HI) as (? & ? & _ & _ & _ & C).
      discriminate.
    + destruct (size_call_in _ _ _ HI) as (k & C & _ & N). discriminate.
    + destruct (size_call_in _ _ _ HI) as (k & C & _ & N).
      inversion C. subst. apply N. reflexivity.
  - intros HI. apply S in HI.
    destruct HI as [HI|[HI|[HI|[HI|[HI|HI]]]]]; try discriminate.
    + destruct (tos_call_in _ _ _ E HI) as (value & k & Ht & Hk & Tr & C).
      inversion C. subst k. destruct value as [n|name]; [|eauto].
      simpl in Hk. inversion Hk. subst n. rewrite Ht in Tr. discriminate.
    + destruct (size_call_in _ _ _ HI) as (k & C & _ & N). discriminate.
    + destruct (size_call_in _ _ _ HI) as (k & C & _ & N). discriminate.
  - intros v HI. apply S in HI.
    destruct HI as [HI|[HI|[HI|[HI|[HI|HI]]]]]; try discriminate.
    + destruct (tos_call_in _ _ _ E HI) as (? & ? & _ & _ & _ & C).
      discriminate.
    + destruct (size_call_in _ _ _ HI) as (k & C & _ & N). discriminate.
    + destruct (size_call_in _ _ _ HI) as (k & C & _ & N). discriminate.
Qed.

End Types.

Lemma zero_options_not_applied_witness :
  ~ In (SOL_SOCKET, SO_RCVBUF, 0) [(SOL_SOCKET, SO_REUSEADDR, 1)].
Proof.
  exact (proj1 (zero_options_not_applied decimal_int (fun _ => None)
                  {| allow_reuse_port := true; b := false; D := false;
                     T := Some (inl 0); I := Some 0; O := None |}
                  [(SOL_SOCKET, SO_REUSEADDR, 1)] eq_refl)).
Defined.

Lemma toskeyword_is_a_byte_witness : 0 <= 16 <= 255.
Proof.
  exact (proj1 (toskeyword_is_a_byte decimal_int (fun _ => Some 16)
                  "0x10" 16 eq_refl)).
Defined.

End Options.

(** ** The relay loop: what it passes on and how it ends *)

Module RelayFacts.
Import Py Relay.

(** The chunk a turn receives from the network and the chunk it reads
    from the input stream, as they are passed on. *)
Definition net_chunk (e : tick) : list bytes :=
  match net_in e with
  | RecvValue (Some ((_ :: _) as data)) => [data]
  | _ => []
  end.

Definition stdin_chunk (nc : NetcatConnection) (e : tick) : list bytes :=
  match std_in e with
  | ReadValue (Some ((_ :: _) as data)) =>
      [if C nc then crlf data else data]
  | _ => []
  end.

(** [data] without its carriage returns. *)
Definition strip_cr (data : bytes) : bytes :=
  filter (fun b => negb (Byte.eqb b x0d)) data.

(** Every line feed of [data] follows a carriage return. *)
Fixpoint lf_after_cr (previous : option byte) (data : bytes) : Prop :=
  match data with
  | [] => True
  | b :: rest =>
      (b = x0a -> previous = Some x0d) /\ lf_after_cr (Some b) rest
  end.

(** [NetcatUDPConnection.recv]: what the connection of a UDP client or
    server makes of the outcome of [NetcatConnection.recv]. *)
Definition NetcatUDPConnection_recv (r : recv_result) : recv_result :=
  match r with
  | RecvRaise (OSError _) => RecvRaise StopReadWrite
  | other => other
  end.

(** A turn of the loop of a UDP connection. *)
Definition udp (e : tick) : tick :=
  {| net_in := NetcatUDPConnection_recv (net_in e);
     std_in := std_in e; net_out := net_out e;
     t_recv := t_recv e; t_send := t_send e; t_eof := t_eof e;
     t_quit := t_quit e; t_idle := t_idle e |}.

(** A clock that does not run backwards within a turn. *)
Definition clock_forward (l : locals) (e : tick) : Prop :=
  (idle_time l <= t_idle e)%Q /\ (t_recv e <= t_idle e)%Q
  /\ (t_send e <= t_idle e)%Q.

Lemma iteration_passes_on nc l io e l1 io1 :
  iteration nc l io e = Continue l1 io1 ->
  stdout io1 = (stdout io ++ net_chunk e)%list
  /\ sent (net io1)
     = (sent (net io) ++ (if d nc then [] else stdin_chunk nc e))%list.
Proof.
  unfold iteration, net_chunk, stdin_chunk.
  destruct (netin_eof l); [discriminate|].
  destruct (net_in e) as [net_data|x]; [|destruct x; discriminate].
  assert (N : stdout (snd (on_net_data l io e net_data))
              = (stdout io ++ match net_data with
                              | Some ((_ :: _) as data) => [data]
                              | _ => []
                              end)%list
              /\ net (snd (on_net_data l io e net_data))
                 = match net_data with
                   | Some [] => shutdown_rd (net io)
                   | _ => net io
                   end).
  { destruct net_data as [[|b0 data]|]; simpl; rewrite ?app_nil_r; auto. }
  destruct N as [N1 N2].
  assert (N3 : sent (net (snd (on_net_data l io e net_data))) = sent (net io)).
  { rewrite N2. destruct net_data as [[|b0 data]|]; reflexivity. }
  destruct (on_net_data l io e net_data) as [l0 io0]. simpl in N1, N3.
  destruct (d nc); simpl.
  - intros H. inversion H. subst. rewrite N1, N3, app_nil_r. auto.
  - destruct (std_in e) as [stdin_data|x]; [|destruct x; discriminate].
    unfold on_stdin_data, sendall.
    destruct stdin_data as [[|b0 data]|].
    + destruct (_ && _); [discriminate|].
      match goal with
      | |- context [idle_check nc ?l2 ?io2 e] =>
          destruct (idle_check_cases nc l2 io2 e) as [E|E]; rewrite E
      end; [|discriminate].
      intros H. inversion H. subst.
      destruct (q nc =? 0); simpl; rewrite N1, N3, app_nil_r; auto.
    + destruct (wr_shut (net io0)).
      * simpl. discriminate.
      * destruct (net_out e) as [|errno].
        -- match goal with
           | |- context [idle_check nc ?l2 ?io2 e] =>
               destruct (idle_check_cases nc l2 io2 e) as [E|E]; rewrite E
           end; [|discriminate].
           intros H. inversion H. subst. simpl. rewrite N1, N3. auto.
        -- destruct (errno =? EPIPE); discriminate.
    + destruct (idle_check_cases nc l0 io0 e) as [E|E]; rewrite E;
        [|discriminate].
      intros H. inversion H. subst. rewrite N1, N3, app_nil_r. auto.
Qed.

(** X6.  While the loop runs, the output stream has received the chunks
    that came from the network, whole and in order, and the network the
    chunks read from the input stream (with line feeds rewritten under
    [C]), whole and in order; nothing else is written or sent. *)
Theorem relay_passes_on_in_order nc turns : forall l io l' io',
  loop nc l io turns = Running l' io' ->
  stdout io' = (stdout io ++ flat_map net_chunk turns)%list
  /\ sent (net io')
     = (sent (net io)
          ++ (if d nc then [] else flat_map (stdin_chunk nc) turns))%list.
Proof.
  induction turns as [|e rest IH]; intros l io l' io' H; simpl in H.
  - inversion H. subst. simpl. destruct (d nc); rewrite !app_nil_r; auto.
  - destruct (iteration nc l io e) as [l1 io1| |] eqn:It; try discriminate.
    destruct (iteration_passes_on nc l io e l1 io1 It) as [O1 S1].
    destruct (IH l1 io1 l' io' H) as [O2 S2].
    rewrite O2, O1, S2, S1. simpl.
    destruct (d nc); rewrite <- !app_assoc; auto.
Qed.

(** What each way of ending a turn requires. *)
Definition ending_requires (nc : NetcatConnection) (l : locals) (e : tick)
    (why : ending) : Prop :=
  match why with
  | NetEOF => netin_eof l = true
  | RecvFailed => exists errno, net_in e = RecvRaise (OSError errno)
  | Stopped =>
      net_in e = RecvRaise StopReadWrite
      \/ (d nc = false /\ std_in e = ReadRaise StopReadWrite)
  | BrokenPipe =>
      d nc = false
      /\ exists b data, std_in e = ReadValue (Some (b :: data))
  | QuitDelay => d nc = false /\ q nc > 0 /\ std_in e = ReadValue (Some [])
  | IdleTimeout => d nc = false /\ timeout nc <> None
  end.

Lemma iteration_ending nc l io e why io1 :
  iteration nc l io e = Finish why io1 -> ending_requires nc l e why.
Proof.
  unfold iteration.
  destruct (netin_eof l) eqn:N.
  { intros H. inversion H. exact N. }
  destruct (net_in e) as [net_data|x] eqn:R.
  2:{ destruct x; intros H; inversion H; simpl; eauto. }
  destruct (on_net_data l io e net_data) as [l0 io0].
  destruct (d nc) eqn:D; simpl; [discriminate|].
  destruct (std_in e) as [stdin_data|x] eqn:S.
  2:{ destruct x; intros H; inversion H; simpl; eauto. }
  assert (Idle : forall l2 io2,
            idle_check nc l2 io2 e = Finish why io1 ->
            ending_requires nc l e why).
  { unfold idle_check. intros l2 io2.
    destruct (timeout nc) as [secs|] eqn:T; [|discriminate].
    destruct (Qle_bool _ _); [|discriminate].
    intros H. inversion H. simpl. split; [exact D|].
    rewrite T. discriminate. }
  unfold on_stdin_data, sendall.
  destruct stdin_data as [[|b0 data]|].
  - destruct (q nc >? 0) eqn:Qp; simpl.
    + destruct (Qle_bool _ _); [|apply Idle].
      intros H. inversion H. simpl. apply Z.gtb_lt in Qp.
      split; [exact D|]. split; [lia | exact S].
    + apply Idle.
  - destruct (wr_shut (net io0)).
    + simpl. intros H. inversion H. simpl. eauto.
    + destruct (net_out e) as [|errno]; [apply Idle|].
      destruct (errno =? EPIPE); [|discriminate].
      intros H. inversion H. simpl. eauto.
  - apply Idle.
Qed.


(** X8.  When [recv] returns the empty byte string the read half is shut
    down, the rest of that turn still runs, and the loop stops at the
    next turn whatever arrives then. *)
Theorem network_eof_ends_next_turn nc l io e l1 io1 next rest :
  netin_eof l = false ->
  net_in e = RecvValue (Some []) ->
  iteration nc l io e = Continue l1 io1 ->
  rd_shut (net io1) = true
  /\ loop nc l io (e :: next :: rest) = Ended NetEOF io1.
Proof.
  intros N R It.
  assert (P : netin_eof l1 = true /\ rd_shut (net io1) = true).
  { revert It. unfold iteration. rewrite N, R. simpl.
    destruct (d nc); simpl.
    - intros H. inversion H. auto.
    - destruct (std_in e) as [stdin_data|x]; [|destruct x; discriminate].
      unfold on_stdin_data, sendall. simpl.
      destruct stdin_data as [[|b0 data]|].
      + destruct (_ && _); [discriminate|].
        match goal with
        | |- context [idle_check nc ?l2 ?io2 e] =>
            destruct (idle_check_cases nc l2 io2 e) as [E|E]; rewrite E
        end; [|discriminate].
        intros H. inversion H. destruct (q nc =? 0); auto.
      + destruct (wr_shut (net io)); [discriminate|].
        destruct (net_out e) as [|errno].
        * match goal with
          | |- context [idle_check nc ?l2 ?io2 e] =>
              destruct (idle_check_cases nc l2 io2 e) as [E|E]; rewrite E
          end; [|discriminate].
          intros H. inversion H. auto.
        * destruct (errno =? EPIPE); discriminate.
      + match goal with
        | |- context [idle_check nc ?l2 ?io2 e] =>
            destruct (idle_check_cases nc l2 io2 e) as [E|E]; rewrite E
        end; [|discriminate].
        intros H. inversion H. auto. }
  destruct P as [P1 P2]. split; [exact P2|].
  simpl. rewrite It. unfold iteration. rewrite P1. reflexivity.
Qed.

Lemma crlf_cons (b : byte) (data : bytes) :
  crlf (b :: data)
  = ((if Byte.eqb b x0a then [x0d; x0a] else [b]) ++ crlf data)%list.
Proof. reflexivity. Qed.

Lemma crlf_lf_after_cr (data : bytes) : forall previous,
  lf_after_cr previous (crlf data).
Proof.
  induction data as [|b rest IH]; intros previous; [exact I|].
  rewrite crlf_cons. destruct (Byte.eqb b x0a) eqn:E; simpl.
  - split; [discriminate|]. split; [reflexivity|]. apply IH.
  - split; [|apply IH]. intros H. subst b. discriminate E.
Qed.

(** X9.  The rewriting of [-C] puts a carriage return before every line
    feed and changes nothing else: the result has one byte more per
    line feed, data without line feeds is sent as it is, and taking the
    carriage returns out again gives back data that had none.  A line
    feed that already follows a carriage return gets one more. *)
Theorem crlf_round_trip (data : bytes) :
  lf_after_cr None (crlf data)
  /\ List.length (crlf data)
     = (List.length data + count_occ Byte.byte_eq_dec data x0a)%nat
  /\ (~ In x0a data -> crlf data = data)
  /\ (~ In x0d data -> strip_cr (crlf data) = data)
  /\ crlf [x0d; x0a] = [x0d; x0d; x0a].
Proof.
  split; [apply crlf_lf_after_cr|]. split; [|split; [|split]].
  - induction data as [|b rest IH]; [reflexivity|].
    rewrite crlf_cons, length_app, IH. simpl.
    destruct (Byte.byte_eq_dec b x0a) as [E|E].
    + subst b. simpl. lia.
    + destruct (Byte.eqb b x0a) eqn:B.
      * apply Byte.byte_dec_bl in B. contradiction.
      * simpl. lia.
  - induction data as [|b rest IH]; intros N; [reflexivity|].
    rewrite crlf_cons.
    destruct (Byte.eqb b x0a) eqn:B.
    + apply Byte.byte_dec_bl in B. exfalso. apply N. left. auto.
    + simpl. rewrite IH; [reflexivity|]. intros I. apply N. right. exact I.
  - induction data as [|b rest IH]; intros N; [reflexivity|].
    rewrite crlf_cons. unfold strip_cr in *. rewrite filter_app.
    rewrite IH by (intros I; apply N; right; exact I).
    assert (Nb : Byte.eqb b x0d = false).
    { destruct (Byte.eqb b x0d) eqn:B; [|reflexivity].
      apply Byte.byte_dec_bl in B. exfalso. apply N. left. auto. }
    destruct (Byte.eqb b x0a) eqn:B; simpl.
    + apply Byte.byte_dec_bl in B. subst b. reflexivity.
    + rewrite Nb. reflexivity.
  - reflexivity.
Qed.

(** X10.  A negative quit delay makes the end of the input stream do
    nothing: the write half is not shut down and the turn ends the loop
    only through the idle check. *)
Theorem negative_quit_delay_ignores_eof nc l io e :
  q nc < 0 -> reads_eof nc l e ->
  wr_shut (net (step_streams (iteration nc l io e))) = wr_shut (net io)
  /\ match iteration nc l io e with
     | Finish why _ => why = IdleTimeout
     | Continue _ _ => True
     | Propagate _ _ => False
     end.
Proof.
  intros Qn (N & D & (net_data & R) & S).
  unfold iteration. rewrite N, R, D, S.
  destruct (on_net_data_keeps l io e net_data) as (_ & K1 & _).
  destruct (on_net_data l io e net_data) as [l0 io0]. simpl in K1.
  unfold on_stdin_data.
  replace (q nc =? 0) with false by (symmetry; apply Z.eqb_neq; lia).
  replace (q nc >? 0) with false
    by (symmetry; rewrite Z.gtb_ltb; apply Z.ltb_ge; lia).
  simpl.
  match goal with
  | |- context [idle_check nc ?l2 ?io2 e] =>
      destruct (idle_check_cases nc l2 io2 e) as [E|E]; rewrite E
  end; simpl; auto.
Qed.

(** X11.  An idle timeout of zero is a timeout, not the absence of one: with
    the input attached, a turn that gets as far as the idle check ends
    the loop there, as soon as the clock does not run backwards. *)
Theorem zero_idle_timeout_ends_first_turn nc l io e :
  timeout nc = Some 0 -> d nc = false -> clock_forward l e ->
  forall l1 io1, iteration nc l io e <> Continue l1 io1.
Proof.
  intros T D (C1 & C2 & C3) l1 io1. unfold iteration. rewrite D.
  destruct (netin_eof l); [discriminate|].
  destruct (net_in e) as [net_data|x]; [|destruct x; discriminate].
  assert (I0 : (idle_time (fst (on_net_data l io e net_data)) <= t_idle e)%Q).
  { destruct net_data as [[|b0 data]|]; simpl; assumption. }
  destruct (on_net_data l io e net_data) as [l0 io0]. simpl in I0. simpl.
  destruct (std_in e) as [stdin_data|x]; [|destruct x; discriminate].
  assert (Z0 : forall l2 io2, (idle_time l2 <= t_idle e)%Q ->
               idle_check nc l2 io2 e = Finish IdleTimeout io2).
  { intros l2 io2 H. apply idle_check_expired with (secs := 0); [exact T|].
    unfold Qminus. rewrite <- (Qplus_opp_r (idle_time l2)).
    apply Qplus_le_compat; [exact H | apply Qle_refl]. }
  unfold on_stdin_data, sendall.
  destruct stdin_data as [[|b0 data]|].
  - destruct (_ && _); [discriminate|]. rewrite Z0; [discriminate|exact I0].
  - destruct (wr_shut (net io0)); [discriminate|].
    destruct (net_out e) as [|errno].
    + rewrite Z0; [discriminate|exact C3].
    + destruct (errno =? EPIPE); discriminate.
  - rewrite Z0; [discriminate|exact I0].
Qed.

(** X12.  On a UDP connection a failed [recv] is a request to stop: the loop
    of such a connection never ends on a failed [recv], and a turn whose
    [recv] fails ends it cleanly with the streams as they were. *)
Theorem udp_recv_failure_stops_cleanly nc turns : forall l io,
  (forall io', loop nc l io (map udp turns) <> Ended RecvFailed io')
  /\ (forall e rest errno,
        turns = e :: rest -> netin_eof l = false ->
        net_in e = RecvRaise (OSError errno) ->
        loop nc l io (map udp turns) = Ended Stopped io).
Proof.
  induction turns as [|e rest IH]; intros l io; split.
  - discriminate.
  - discriminate.
  - intros io'. simpl.
    destruct (iteration nc l io (udp e)) as [l1 io1|why io1|x io1] eqn:It.
    + apply IH.
    + intros H. inversion H. subst why.
      destruct (iteration_ending nc l io (udp e) RecvFailed io1 It)
        as (errno & R).
      simpl in R. destruct (net_in e) as [net_data|x]; [discriminate|].
      destruct x; discriminate.
    + discriminate.
  - intros e0 rest0 errno E N R. inversion E. subst e0 rest0.
    simpl. unfold iteration. rewrite N. simpl. rewrite R. reflexivity.
Qed.

Lemma relay_passes_on_in_order_witness :
  stdout {| net := {| rd_shut := false; wr_shut := false;
                      sent := [[x61; x0d; x0a; x62]] |};
            stdout := [[x68; x69]] |}
  = ([] ++ [[x68; x69]])%list.
Proof.
  exact (proj1 (relay_passes_on_in_order
    {| C := true; d := false; i := 0; q := 0; w := None; plen := 2048 |}
    [{| net_in := RecvValue (Some [x68; x69]);
        std_in := ReadValue (Some [x61; x0a; x62]);
        net_out := SendOk;
        t_recv := 4; t_send := 5; t_eof := 5; t_quit := 5; t_idle := 5 |}]
    {| netin_eof := false; stdin_eof := None; idle_time := 3 |}
    fresh_streams
    {| netin_eof := false; stdin_eof := None; idle_time := 5 |}
    {| net := {| rd_shut := false; wr_shut := false;
                 sent := [[x61; x0d; x0a; x62]] |};
       stdout := [[x68; x69]] |}
    eq_refl)).
Defined.


Definition network_eof_at (t : Q) : tick :=
  {| net_in := RecvValue (Some []); std_in := ReadValue None;
     net_out := SendOk;
     t_recv := t; t_send := t; t_eof := t; t_quit := t; t_idle := t |}.

Lemma network_eof_ends_next_turn_witness :
  loop defaults {| netin_eof := false; stdin_eof := None; idle_time := 3 |}
       fresh_streams [network_eof_at 4; quiet_at 5; quiet_at 6]
  = Ended NetEOF {| net := {| rd_shut := true; wr_shut := false;
                              sent := [] |};
                    stdout := [] |}.
Proof.
  exact (proj2 (network_eof_ends_next_turn defaults
                  {| netin_eof := false; stdin_eof := None; idle_time := 3 |}
                  fresh_streams (network_eof_at 4)
                  {| netin_eof := true; stdin_eof := None; idle_time := 3 |}
                  {| net := {| rd_shut := true; wr_shut := false;
                               sent := [] |};
                     stdout := [] |}
                  (quiet_at 5) [quiet_at 6] eq_refl eq_refl eq_refl)).
Defined.

Lemma iteration_sets_netin_eof nc l io e l1 io1 :
  iteration nc l io e = Continue l1 io1 -> netin_eof l1 = true ->
  net_in e = RecvValue (Some []).
Proof.
  unfold iteration.
  destruct (netin_eof l) eqn:N; [discriminate|].
  destruct (net_in e) as [net_data|x]; [|destruct x; discriminate].
  assert (K : netin_eof (fst (on_net_data l io e net_data)) = true ->
              net_data = Some []).
  { destruct net_data as [[|b0 data]|]; simpl; auto; rewrite N;
      discriminate. }
  destruct (on_net_data l io e net_data) as [l0 io0]. simpl in K.
  assert (Idle : forall l2 io2,
            netin_eof l2 = netin_eof l0 ->
            idle_check nc l2 io2 e = Continue l1 io1 ->
            netin_eof l1 = true -> RecvValue net_data = RecvValue (Some [])).
  { intros l2 io2 E2 H T.
    destruct (idle_check_cases nc l2 io2 e) as [E|E]; rewrite E in H;
      [|discriminate].
    inversion H. subst. rewrite E2 in T. rewrite (K T). reflexivity. }
  destruct (d nc); simpl.
  - intros H T. inversion H. subst. rewrite (K T). reflexivity.
  - destruct (std_in e) as [stdin_data|x]; [|destruct x; discriminate].
    unfold on_stdin_data, sendall.
    destruct stdin_data as [[|b0 data]|].
    + destruct (_ && _); [discriminate|]. apply Idle. reflexivity.
    + destruct (wr_shut (net io0)); [discriminate|].
      destruct (net_out e) as [|errno].
      * apply Idle. reflexivity.
      * destruct (errno =? EPIPE); discriminate.
    + apply Idle. reflexivity.
Qed.

(** X26.  The loop ends for a reason only if what the reason needs is
    there: on a quit delay only with a positive [q], on the idle timeout
    only with [w] set, and on either, or on a broken pipe, only with the
    input attached; on the end of the network stream only after [recv]
    returned the empty byte string; on a failed [recv] or a request to
    stop only when a turn raised it. *)
Theorem relay_ending_has_its_cause nc turns : forall l io why io',
  netin_eof l = false ->
  loop nc l io turns = Ended why io' ->
  match why with
  | QuitDelay => d nc = false /\ q nc > 0
  | IdleTimeout => d nc = false /\ timeout nc <> None
  | BrokenPipe => d nc = false
  | NetEOF => exists e, In e turns /\ net_in e = RecvValue (Some [])
  | RecvFailed =>
      exists e errno, In e turns /\ net_in e = RecvRaise (OSError errno)
  | Stopped =>
      exists e, In e turns
                /\ (net_in e = RecvRaise StopReadWrite
                    \/ std_in e = ReadRaise StopReadWrite)
  end.
Proof.
  induction turns as [|e rest IH]; intros l io why io' N H; [discriminate|].
  simpl in H.
  destruct (iteration nc l io e) as [l1 io1|why1 io1|x io1] eqn:It;
    [| |discriminate].
  - destruct (netin_eof l1) eqn:N1.
    + pose proof (iteration_sets_netin_eof nc l io e l1 io1 It N1) as R.
      destruct rest as [|next rest]; [discriminate|].
      simpl in H. unfold iteration in H. rewrite N1 in H.
      inversion H. subst. exists e. split; [left; reflexivity | exact R].
    + specialize (IH l1 io1 why io' N1 H).
      destruct why; auto.
      * destruct IH as (e' & I' & R'). exists e'. split; [right|]; auto.
      * destruct IH as (e' & errno & I' & R'). exists e', errno.
        split; [right|]; auto.
      * destruct IH as (e' & I' & R'). exists e'. split; [right|]; auto.
  - inversion H. subst why1 io1.
    pose proof (iteration_ending nc l io e why io' It) as Q.
    destruct why; simpl in Q.
    + rewrite N in Q. discriminate.
    + destruct Q as (errno & R). exists e, errno. split; [left|]; auto.
    + tauto.
    + tauto.
    + exact Q.
    + exists e. split; [left; reflexivity|]. tauto.
Qed.

Lemma relay_ending_has_its_cause_witness :
  exists e, In e [network_eof_at 4; quiet_at 5]
            /\ net_in e = RecvValue (Some []).
Proof.
  exact (relay_ending_has_its_cause defaults [network_eof_at 4; quiet_at 5]
           {| netin_eof := false; stdin_eof := None; idle_time := 3 |}
           fresh_streams NetEOF
           {| net := {| rd_shut := true; wr_shut := false; sent := [] |};
              stdout := [] |}
           eq_refl eq_refl).
Defined.

Lemma crlf_round_trip_witness : strip_cr (crlf [x61; x0a; x62]) = [x61; x0a; x62].
Proof.
  apply (proj1 (proj2 (proj2 (proj2 (crlf_round_trip [x61; x0a; x62]))))).
  intros [H|[H|[H|[]]]]; discriminate H.
Defined.

Definition quit_never : NetcatConnection :=
  {| C := false; d := false; i := 0; q := -1; w := None; plen := 2048 |}.

Lemma negative_quit_delay_ignores_eof_witness :
  wr_shut (net (step_streams
                  (iteration quit_never
                             {| netin_eof := false; stdin_eof := None;
                                idle_time := 3 |}
                             fresh_streams (eof_at 4))))
  = false.
Proof.
  apply (proj1 (negative_quit_delay_ignores_eof quit_never
                  {| netin_eof := false; stdin_eof := None; idle_time := 3 |}
                  fresh_streams (eof_at 4) ltac:(reflexivity)
                  (conj eq_refl (conj eq_refl
                     (conj (ex_intro _ None eq_refl) eq_refl))))).
Defined.

Definition timeout_zero : NetcatConnection :=
  {| C := false; d := false; i := 0; q := 0; w := Some 0; plen := 2048 |}.

Lemma zero_idle_timeout_ends_first_turn_witness :
  iteration timeout_zero
            {| netin_eof := false; stdin_eof := None; idle_time := 3 |}
            fresh_streams (quiet_at 4)
  <> Continue {| netin_eof := false; stdin_eof := None; idle_time := 3 |}
              fresh_streams.
Proof.
  apply (zero_idle_timeout_ends_first_turn timeout_zero
           {| netin_eof := false; stdin_eof := None; idle_time := 3 |}
           fresh_streams (quiet_at 4) eq_refl eq_refl).
  unfold clock_forward, Qle. simpl. lia.
Defined.

Lemma udp_recv_failure_stops_cleanly_witness :
  loop defaults {| netin_eof := false; stdin_eof := None; idle_time := 3 |}
       fresh_streams
       (map udp [{| net_in := RecvRaise (OSError ECONNREFUSED);
                    std_in := ReadValue None; net_out := SendOk;
                    t_recv := 4; t_send := 4; t_eof := 4; t_quit := 4;
                    t_idle := 4 |}])
  = Ended Stopped fresh_streams.
Proof.
  exact (proj2 (udp_recv_failure_stops_cleanly defaults
                  [{| net_in := RecvRaise (OSError ECONNREFUSED);
                      std_in := ReadValue None; net_out := SendOk;
                      t_recv := 4; t_send := 4; t_eof := 4; t_quit := 4;
                      t_idle := 4 |}]
                  {| netin_eof := false; stdin_eof := None; idle_time := 3 |}
                  fresh_streams)
               _ _ ECONNREFUSED eq_refl eq_refl eq_refl).
Defined.

End RelayFacts.

(** ** The client: proxies, fatal errors, verbosity and UDP probes *)

Module ClientFacts.
Import Py Exec Client.


(** [':' in text] *)
Fixpoint has_colon (text : string) : bool :=
  match text with
  | EmptyString => false
  | String ch rest => Ascii.eqb ch ":"%char || has_colon rest
  end.


(** [NetcatUDPClient._udptest]: the probes sent and the seconds slept,
    in order; the socket answers the [k]-th [sendall] with [answer k]. *)
Inductive probe : Type :=
| SendX          (* sock.sendall(b'X') *)
| Sleep1.        (* time.sleep(1) *)

Definition probing : Type := (nat * list probe)%type.

Definition probe_sendall (answer : nat -> Relay.send_result) (st : probing)
    : option Z * probing :=
  let st' := (S (fst st), (snd st ++ [SendX])%list) in
  match answer (fst st) with
  | Relay.SendOk => (None, st')
  | Relay.SendRaise errno => (Some errno, st')
  end.

(** [for i in compat.range(rounds): body], stopped by the first error. *)
Fixpoint for_range (rounds : nat) (body : probing -> option Z * probing)
    (st : probing) : option Z * probing :=
  match rounds with
  | O => (None, st)
  | S more =>
      match body st with
      | (None, st') => for_range more body st'
      | failed => failed
      end
  end.

Definition udp_scan_timeout : Z := 3.

Definition _udptest (w : option Z) (answer : nat -> Relay.send_result)
    : option Z * probing :=
  match for_range 2 (probe_sendall answer) (O, []) with
  | (None, st) =>
      let timeout := match w with Some t => t | None => udp_scan_timeout end in
      for_range (Z.to_nat timeout)
                (fun st => probe_sendall answer
                             (fst st, (snd st ++ [Sleep1])%list))
                st
  | failed => failed
  end.

(** [NetcatUDPClient._client_connect] after [connect] went through: the
    error of a probe is the error of the attempt. *)
Definition udp_attempt (strerror : Z -> string) (w : option Z)
    (answer : nat -> Relay.send_result) : attempt :=
  match fst (_udptest w answer) with
  | None => Connects
  | Some errno => RaisesSocketError errno (strerror errno)
  end.




Section Scan.

Variable py_int : string -> option Z.
Variable py_repr : string -> string.
Variable getservbyport : Z -> string -> option string.
Variable cls : client_class.

Abbreviation verdict_of := (Client.verdict_of py_int py_repr).
Abbreviation outcome_of := (Client.outcome_of py_int py_repr).
Abbreviation created := (Client.created py_int py_repr).
Abbreviation no_fatal := (Client.no_fatal py_int py_repr).
Abbreviation status_after := (Client.status_after py_int py_repr cls).
Abbreviation events_of := (Client.events_of py_int py_repr getservbyport cls).
Abbreviation report_of := (Client.report_of py_int py_repr getservbyport cls).
Abbreviation iter_connections :=
  (Client.iter_connections py_int py_repr getservbyport cls).
Abbreviation proxy_port := (Client.proxy_port py_int py_repr).

Lemma split1_at_first_colon (address text : string) :
  has_colon address = false ->
  split1 ":"%char (address ++ ":" ++ text) = [address; text].
Proof.
  change (":" ++ text)%string with (String ":"%char text).
  induction address as [|ch rest IH]; simpl; [reflexivity|].
  destruct (Ascii.eqb ch ":"%char); simpl; [discriminate|].
  intros H. rewrite (IH H). reflexivity.
Qed.

Lemma split1_without_colon (address : string) :
  has_colon address = false -> split1 ":"%char address = [address].
Proof.
  induction address as [|ch rest IH]; simpl; [reflexivity|].
  destruct (Ascii.eqb ch ":"%char); simpl; [discriminate|].
  intros H. rewrite (IH H). reflexivity.
Qed.

(** X13.  The proxy of [-x] is cut at its first colon: what comes before is
    the address, what comes after is the port, an integer if [int]
    reads it and its [repr] otherwise; without a colon the port is the
    default of the proxy protocol, 1080 for SOCKS and 3128 for HTTP
    CONNECT. *)
Theorem proxy_is_cut_at_first_colon (c : NetcatClient)
    (address text : string) :
  has_colon address = false ->
  proxy_address (address ++ ":" ++ text) = address
  /\ proxy_port c (address ++ ":" ++ text)
     = match py_int text with
       | Some k => inl k
       | None => inr (py_repr text)
       end
  /\ proxy_address address = address
  /\ proxy_port c address
     = inl (match X c with HttpConnect => 3128 | _ => 1080 end).
Proof.
  intros H. unfold proxy_address, Client.proxy_port, default_proxy_port.
  rewrite split1_at_first_colon, split1_without_colon by exact H.
  simpl. repeat split; destruct (X c); reflexivity.
Qed.
















(** *** The order of the ports *)






(** *** UDP probes *)

Lemma for_range_all_sent (answer : nat -> Relay.send_result)
    (before : list probe) (body : probing -> option Z * probing)
    (rounds : nat) :
  (forall st, body st = probe_sendall answer (fst st, (snd st ++ before)%list)) ->
  forall st,
    (forall k, (fst st <= k < fst st + rounds)%nat -> answer k = Relay.SendOk) ->
    for_range rounds body st
    = (None, ((fst st + rounds)%nat,
              (snd st ++ List.concat (repeat (before ++ [SendX]) rounds))%list)).
Proof.
  intros B. induction rounds as [|rounds IH]; intros [sends done] A; simpl.
  - rewrite Nat.add_0_r, app_nil_r. reflexivity.
  - rewrite B. unfold probe_sendall. simpl.
    rewrite (A sends) by (simpl; lia).
    rewrite IH by (intros k K; apply A; simpl in *; lia).
    simpl. rewrite <- !app_assoc, Nat.add_succ_r. reflexivity.
Qed.

Lemma for_range_first_failure (answer : nat -> Relay.send_result)
    (before : list probe) (body : probing -> option Z * probing)
    (errno : Z) (rounds : nat) :
  (forall st, body st = probe_sendall answer (fst st, (snd st ++ before)%list)) ->
  forall st j,
    (j < rounds)%nat ->
    (forall k, (fst st <= k < fst st + j)%nat -> answer k = Relay.SendOk) ->
    answer (fst st + j)%nat = Relay.SendRaise errno ->
    for_range rounds body st
    = (Some errno,
       (S (fst st + j),
        (snd st ++ List.concat (repeat (before ++ [SendX]) (S j)))%list)).
Proof.
  intros B. induction rounds as [|rounds IH]; intros [sends done] j J A F;
    [lia|].
  simpl. rewrite B. unfold probe_sendall. simpl in *.
  destruct j as [|j].
  - rewrite Nat.add_0_r in *. rewrite F. rewrite app_nil_r, <- app_assoc.
    reflexivity.
  - rewrite (A sends) by lia.
    rewrite (IH (S sends, ((done ++ before) ++ [SendX])%list) j).
    + simpl. rewrite <- !app_assoc, Nat.add_succ_r. reflexivity.
    + lia.
    + intros k K. apply A. simpl in K. lia.
    + simpl. rewrite <- F. f_equal. lia.
Qed.

(** X17.  A UDP client probes a port it has connected to: two bytes at once,
    then one byte after each of [w] seconds, three when [w] is not set
    and none when it is zero.  On a port that answers nothing the
    attempt succeeds after all probes; the first probe that fails ends
    the probing, and the attempt is a refusal when the error is
    [ECONNREFUSED] and a fatal socket error otherwise. *)
Theorem udp_client_probes (strerror : Z -> string) (c : NetcatClient)
    (w : option Z) (answer : nat -> Relay.send_result) (p : Z) :
  let rounds :=
    Z.to_nat (match w with Some t => t | None => 3 end) in
  ((forall k, (k < 2 + rounds)%nat -> answer k = Relay.SendOk) ->
   _udptest w answer
   = (None, ((2 + rounds)%nat,
             ([SendX; SendX]
                ++ List.concat (repeat [Sleep1; SendX] rounds))%list))
   /\ udp_attempt strerror w answer = Connects)
  /\ (forall k errno,
        (k < 2 + rounds)%nat ->
        (forall j, (j < k)%nat -> answer j = Relay.SendOk) ->
        answer k = Relay.SendRaise errno ->
        _udptest w answer
        = (Some errno,
           (S k,
            if (k <? 2)%nat then repeat SendX (S k)
            else ([SendX; SendX]
                    ++ List.concat (repeat [Sleep1; SendX] (k - 1)))%list))
        /\ Client.verdict_of py_int py_repr c p (udp_attempt strerror w answer)
           = if errno =? ECONNREFUSED
             then Refused (dest c) (str_of_int p)
             else Fatal (NetcatError SocketError (strerror errno))).
Proof.
  intros rounds. subst rounds. unfold udp_attempt, _udptest, udp_scan_timeout.
  generalize (Z.to_nat match w with Some t => t | None => 3 end).
  intros rounds.
  assert (B0 : forall st, probe_sendall answer st
                          = probe_sendall answer (fst st, (snd st ++ [])%list)).
  { intros [sends done]. simpl. rewrite app_nil_r. reflexivity. }
  assert (B1 : forall st : probing,
             probe_sendall answer (fst st, (snd st ++ [Sleep1])%list)
             = probe_sendall answer (fst st, (snd st ++ [Sleep1])%list))
    by reflexivity.
  split.
  - intros A.
    rewrite (for_range_all_sent answer [] _ 2 B0)
      by (intros k K; apply A; simpl in K; lia).
    cbv iota beta.
    rewrite (for_range_all_sent answer [Sleep1] _ _ B1)
      by (intros k K; apply A; simpl in K; lia).
    split; reflexivity.
  - intros k errno K A F. destruct (Nat.ltb_spec k 2) as [L|L].
    + rewrite (for_range_first_failure answer [] _ errno 2 B0 (O, []) k L)
        by (simpl; auto; intros j J; apply A; lia).
      simpl. destruct k as [|[|k]]; [split; reflexivity|split; reflexivity|lia].
    + rewrite (for_range_all_sent answer [] _ 2 B0)
        by (intros j J; apply A; simpl in J; lia).
      cbv iota beta.
      rewrite (for_range_first_failure answer [Sleep1] _ errno _ B1 _ (k - 2));
        simpl fst.
      * simpl. replace (S (S (k - 2))) with k by lia.
        replace (k - 1)%nat with (S (k - 2)) by lia. split; reflexivity.
      * lia.
      * intros j J; apply A; lia.
      * rewrite <- F. f_equal. lia.
Qed.

End Scan.

Example ipv6_proxy_is_cut_short :
  proxy_address "::1" = ""
  /\ Client.proxy_port decimal_int quoted (localhost false false) "::1"
     = inr "':1'".
Proof. split; reflexivity. Qed.

Lemma proxy_is_cut_at_first_colon_witness :
  proxy_address "proxy.example:8080" = "proxy.example".
Proof.
  exact (proj1 (proxy_is_cut_at_first_colon decimal_int quoted
                  (localhost false false) "proxy.example" "8080" eq_refl)).
Defined.


Definition refused_at_third_probe (k : nat) : Relay.send_result :=
  match k with
  | 2%nat => Relay.SendRaise ECONNREFUSED
  | _ => Relay.SendOk
  end.


Lemma udp_client_probes_witness :
  _udptest None refused_at_third_probe
  = (Some ECONNREFUSED, (3%nat, [SendX; SendX; Sleep1; SendX])).
Proof.
  apply (proj2 (udp_client_probes decimal_int quoted (fun _ => "refused")
                  (localhost false false) None refused_at_third_probe 8000)
               2%nat ECONNREFUSED).
  - simpl. lia.
  - intros [|[|j]] J; [reflexivity | reflexivity | lia].
  - reflexivity.
Defined.

End ClientFacts.

(** ** The servers: [NetcatServer.iter_connections] *)

Module Server.
Import Py.

Definition bytes : Type := list byte.

(** The attributes of a server that its iteration reads, once
    [__init__] has bound the socket: [port] is the integer it was bound
    to. *)
Record NetcatServer : Type := mkServer {
  dest : string;
  port : Z;
  v : bool;
  n : bool;
  k : bool
}.

(** [NetcatTCPServer] and [NetcatUDPServer]. *)
Inductive server_class : Type := TCPServer | UDPServer.

Definition protocol_name (cls : server_class) : string :=
  match cls with
  | TCPServer => "tcp"
  | UDPServer => "udp"
  end.

(** What a server does to the outside, in order. *)
Inductive event : Type :=
| Wrote (chunk : string)                   (* stderr.write(chunk) *)
| StdoutWrote (data : bytes)               (* stdout.buffer.write(data) *)
| Accepted (sock : nat)                    (* accept() gave a new socket *)
| Connected (sock : nat) (cli_dest : string) (cli_port : Z)
                                           (* sock.connect(addr) *)
| Closed (sock : nat)                      (* sock.close() *)
| Yielded (sock : nat).                    (* yield NetcatConnection(sock) *)

(** What one call of [next_connection] meets: a peer, with the
    datagram [recvfrom] returns when the socket is a datagram socket, or
    a [select] that raises because the socket was closed. *)
Inductive request : Type :=
| Arrives (cli_dest : string) (cli_port : Z) (data : bytes)
| SelectRaises.

(** How the iteration stands when the requests are used up: the
    generator returned, or it is polling the socket in [next_connection]. *)
Inductive status : Type := Returned | Waiting.

(** Readings of a trace. *)
Definition stderr_of (evs : list event) : list string :=
  flat_map (fun ev => match ev with Wrote chunk => [chunk] | _ => [] end) evs.

Definition stdout_of (evs : list event) : list bytes :=
  flat_map (fun ev => match ev with StdoutWrote data => [data] | _ => [] end)
           evs.

Definition sock_events (evs : list event) : list event :=
  filter (fun ev => match ev with
                    | Closed _ | Yielded _ => true
                    | _ => false
                    end) evs.

(** The peers of a script up to the first [select] that raises. *)
Fixpoint arrivals (script : list request) : list (string * Z * bytes) :=
  match script with
  | Arrives cli_dest cli_port data :: rest =>
      (cli_dest, cli_port, data) :: arrivals rest
  | _ => []
  end.

Definition stopped (script : list request) : bool :=
  existsb (fun r => match r with SelectRaises => true | _ => false end) script.

Section Iteration.

(** The text of [self.address_family] in a message, the service
    database, the server class and the server, its socket, and what the
    caller does with the connection on a socket before it resumes the
    generator. *)
Variable family : string.
Variable getservbyport : Z -> string -> option string.
Variable cls : server_class.
Variable srv : NetcatServer.
Variable _sock : nat.
Variable consume : nat -> list event.

Definition print_verbose (message : string) : list event :=
  if v srv then
    if truthy_str message then [Wrote (message ++ newline)] else []
  else [].

Definition v_listening : string :=
  "Listening on [" ++ dest srv ++ "] (family " ++ family ++ ", port "
    ++ str_of_int (port srv) ++ ")".

Definition v_conn_accepted (cli_dest : string) (cli_port : Z) : string :=
  let proto :=
    if negb (n srv) then
      match getservbyport (port srv) (protocol_name cls) with
      | Some name => name
      | None => "*"
      end
    else "*" in
  "Connection from [" ++ cli_dest ++ "] port " ++ str_of_int (port srv)
    ++ " [" ++ protocol_name cls ++ "/" ++ proto ++ "] accepted (family "
    ++ family ++ ", sport " ++ str_of_int cli_port ++ ")".

Definition v_listening_again : string :=
  "Connection closed, listening again.".

Definition _listening : list event := print_verbose v_listening.

Definition _listening_again : list event := print_verbose v_listening_again.

Definition _conn_accepted (cli_dest : string) (cli_port : Z) : list event :=
  print_verbose (v_conn_accepted cli_dest cli_port).

(** [_get_request]: what it does, the socket it returns and the next
    unused socket number. *)
Definition _get_request (fresh : nat) (cli_dest : string) (cli_port : Z)
    (data : bytes) : list event * nat * nat :=
  match cls with
  | TCPServer => ([Accepted fresh], fresh, S fresh)
  | UDPServer =>
      ([StdoutWrote data; Connected _sock cli_dest cli_port], _sock, fresh)
  end.

(** [next_connection], with the override of [NetcatTCPServer]; [None]
    is [StopIteration]. *)
Definition next_connection (fresh : nat) (r : request)
    : option (list event * nat * nat) :=
  match r with
  | SelectRaises => None
  | Arrives cli_dest cli_port data =>
      let '(got, cli_sock, fresh') :=
        _get_request fresh cli_dest cli_port data in
      let closing :=
        match cls with
        | TCPServer => if negb (k srv) then [Closed _sock] else []
        | UDPServer => []
        end in
      Some ((got ++ _conn_accepted cli_dest cli_port ++ closing)%list,
            cli_sock, fresh')
  end.

(** [_close_request], with the override of [NetcatUDPServer]. *)
Definition _close_request (request_sock : nat) : list event :=
  match cls with
  | TCPServer => [Closed request_sock]
  | UDPServer => if negb (k srv) then [Closed request_sock] else []
  end.

(** The [while True] loop that [iter_connections] enters under [k]. *)
Fixpoint listening_again (fresh : nat) (script : list request)
    : list event * status :=
  match script with
  | [] => (_listening_again, Waiting)
  | r :: rest =>
      match next_connection fresh r with
      | None => (_listening_again, Returned)
      | Some (evs, sock, fresh') =>
          let '(more, st) := listening_again fresh' rest in
          ((_listening_again ++ evs ++ [Yielded sock] ++ consume sock
              ++ _close_request sock ++ more)%list, st)
      end
  end.

(** [iter_connections] *)
Definition iter_connections (fresh : nat) (script : list request)
    : list event * status :=
  match script with
  | [] => (_listening, Waiting)
  | r :: rest =>
      match next_connection fresh r with
      | None => (_listening, Returned)
      | Some (evs, sock, fresh') =>
          let first :=
            (_listening ++ evs ++ [Yielded sock] ++ consume sock
               ++ _close_request sock)%list in
          if k srv then
            let '(more, st) := listening_again fresh' rest in
            ((first ++ more)%list, st)
          else (first, Returned)
      end
  end.

(** The peers that are served and the sockets of their connections. *)
Definition served (script : list request) : list (string * Z * bytes) :=
  if k srv then arrivals script else firstn 1 (arrivals script).

Definition sockets_of (fresh count : nat) : list nat :=
  match cls with
  | TCPServer => seq fresh count
  | UDPServer => repeat _sock count
  end.

(** What happens to the sockets around one connection. *)
Definition around (sock : nat) : list event :=
  ((match cls with
    | TCPServer => if negb (k srv) then [Closed _sock] else []
    | UDPServer => []
    end)
     ++ [Yielded sock] ++ sock_events (consume sock)
     ++ _close_request sock)%list.

(** The lines of one served peer. *)
Definition lines_of (again : bool) (peer : string * Z * bytes)
    : list string :=
  let '(cli_dest, cli_port, _) := peer in
  (v_conn_accepted cli_dest cli_port ++ newline)%string
    :: (if again then [(v_listening_again ++ newline)%string] else []).

(** The caller writes nothing itself. *)
Definition quiet_caller : Prop :=
  forall sock, stderr_of (consume sock) = [] /\ stdout_of (consume sock) = [].

(** *** The iteration, by induction on the requests *)

Lemma stderr_of_concat (a b : list event) :
  stderr_of (a ++ b) = (stderr_of a ++ stderr_of b)%list.
Proof. apply flat_map_app. Qed.

Lemma stdout_of_app (a b : list event) :
  stdout_of (a ++ b) = (stdout_of a ++ stdout_of b)%list.
Proof. apply flat_map_app. Qed.

Lemma sock_events_app (a b : list event) :
  sock_events (a ++ b) = (sock_events a ++ sock_events b)%list.
Proof. apply filter_app. Qed.

Lemma print_verbose_silent (message : string) :
  sock_events (print_verbose message) = []
  /\ stdout_of (print_verbose message) = [].
Proof.
  unfold print_verbose.
  destruct (v srv), (truthy_str message); split; reflexivity.
Qed.

Lemma print_verbose_writes (message : string) :
  truthy_str message = true ->
  stderr_of (print_verbose message)
  = if v srv then [(message ++ newline)%string] else [].
Proof.
  intros T. unfold print_verbose. rewrite T. destruct (v srv); reflexivity.
Qed.

Lemma next_connection_arrives (fresh : nat) (cli_dest : string)
    (cli_port : Z) (data : bytes) :
  exists evs sock fresh',
    next_connection fresh (Arrives cli_dest cli_port data)
    = Some (evs, sock, fresh')
    /\ (forall count,
          sockets_of fresh (S count) = sock :: sockets_of fresh' count)
    /\ (sock_events evs ++ [Yielded sock] ++ sock_events (consume sock)
          ++ _close_request sock)%list = around sock
    /\ stderr_of evs
       = (if v srv
          then [(v_conn_accepted cli_dest cli_port ++ newline)%string]
          else [])
    /\ stdout_of evs
       = match cls with TCPServer => [] | UDPServer => [data] end.
Proof.
  destruct (print_verbose_silent (v_conn_accepted cli_dest cli_port))
    as [Q1 Q2].
  pose proof (print_verbose_writes (v_conn_accepted cli_dest cli_port)
                eq_refl) as Q3.
  unfold next_connection, _get_request, sockets_of, around, _conn_accepted.
  destruct cls; do 3 eexists; (split; [reflexivity|]);
    rewrite !stderr_of_concat, !stdout_of_app, !sock_events_app, Q1, Q2, Q3;
    (split; [reflexivity|]); (split; [|split]).
  - destruct (k srv); reflexivity.
  - destruct (k srv), (v srv); reflexivity.
  - destruct (k srv); reflexivity.
  - reflexivity.
  - destruct (v srv); reflexivity.
  - reflexivity.
Qed.

Lemma sockets_of_none (fresh : nat) : sockets_of fresh 0 = [].
Proof. unfold sockets_of. destruct cls; reflexivity. Qed.

Lemma _close_request_sock_events (sock : nat) :
  sock_events (_close_request sock) = _close_request sock.
Proof. unfold _close_request. destruct cls, (k srv); reflexivity. Qed.

Lemma listening_again_sockets (script : list request) : forall fresh,
  sock_events (fst (listening_again fresh script))
  = flat_map around (sockets_of fresh (List.length (arrivals script)))
  /\ snd (listening_again fresh script)
     = if stopped script then Returned else Waiting.
Proof.
  destruct (print_verbose_silent v_listening_again) as [Q _].
  induction script as [|r rest IH]; intros fresh.
  - simpl. unfold _listening_again. rewrite Q, sockets_of_none.
    split; reflexivity.
  - destruct r as [cli_dest cli_port data|].
    + destruct (next_connection_arrives fresh cli_dest cli_port data)
        as (evs & sock & fresh' & N & Sk & A & _).
      cbn [listening_again arrivals List.length stopped existsb orb].
      rewrite N, Sk. destruct (IH fresh') as [I1 I2].
      destruct (listening_again fresh' rest) as [more st]. simpl in I1, I2.
      cbn [fst snd flat_map]. split; [|exact I2].
      unfold _listening_again.
      rewrite !sock_events_app, Q, I1, _close_request_sock_events, <- A.
      simpl. repeat (rewrite <- app_assoc; simpl). reflexivity.
    + simpl. unfold _listening_again. rewrite Q, sockets_of_none.
      split; reflexivity.
Qed.

Lemma listening_again_messages (script : list request) :
  quiet_caller ->
  forall fresh,
    stderr_of (fst (listening_again fresh script))
    = (if v srv
       then (v_listening_again ++ newline)%string
              :: flat_map (lines_of true) (arrivals script)
       else [])
    /\ stdout_of (fst (listening_again fresh script))
       = match cls with
         | TCPServer => []
         | UDPServer => map snd (arrivals script)
         end.
Proof.
  intros QC.
  destruct (print_verbose_silent v_listening_again) as [_ Q].
  pose proof (print_verbose_writes v_listening_again eq_refl) as L.
  assert (CloseQuiet : forall sock, stderr_of (_close_request sock) = []
                                    /\ stdout_of (_close_request sock) = []).
  { intros sock. unfold _close_request.
    destruct cls, (k srv); split; reflexivity. }
  induction script as [|r rest IH]; intros fresh.
  - simpl. unfold _listening_again. rewrite Q, L.
    destruct (v srv), cls; split; reflexivity.
  - destruct r as [cli_dest cli_port data|].
    + destruct (next_connection_arrives fresh cli_dest cli_port data)
        as (evs & sock & fresh' & N & _ & _ & E & O).
      cbn [listening_again arrivals].
      rewrite N. destruct (IH fresh') as [I1 I2].
      destruct (listening_again fresh' rest) as [more st]. simpl in I1, I2.
      cbn [fst]. unfold _listening_again.
      destruct (QC sock) as [C1 C2]. destruct (CloseQuiet sock) as [C3 C4].
      rewrite !stderr_of_concat, !stdout_of_app, Q, L, E, O, I1, I2,
        C1, C2, C3, C4.
      split.
      * destruct (v srv); reflexivity.
      * destruct cls; reflexivity.
    + simpl. unfold _listening_again. rewrite Q, L.
      destruct (v srv), cls; split; reflexivity.
Qed.

(** X18.  A server hands out one connection per peer, and only the first
    one unless [k] is set.  A TCP server closes its listening socket
    before it yields the only connection, and with [k] never closes it;
    each accepted socket is yielded and then closed once.  The
    connection of a UDP server is the server socket itself, closed after
    the only peer, and with [k] not closed at all.  The generator ends
    after the only connection, or when [select] raises; otherwise it
    keeps polling. *)
Theorem server_hands_out_connections (fresh : nat) (script : list request) :
  sock_events (fst (iter_connections fresh script))
  = flat_map around (sockets_of fresh (List.length (served script)))
  /\ snd (iter_connections fresh script)
     = if (negb (k srv) && negb (Nat.eqb (List.length script) 0))
          || stopped script
       then Returned else Waiting.
Proof.
  destruct (print_verbose_silent v_listening) as [Q _].
  unfold iter_connections, served.
  destruct script as [|[cli_dest cli_port data|] rest].
  - cbn [fst snd]. unfold _listening. rewrite Q. simpl.
    rewrite andb_false_r.
    destruct (k srv); simpl; rewrite sockets_of_none; split; reflexivity.
  - destruct (next_connection_arrives fresh cli_dest cli_port data)
      as (evs & sock & fresh' & N & Sk & A & _).
    rewrite N. cbn [arrivals List.length stopped existsb orb Nat.eqb negb].
    destruct (k srv) eqn:K.
    + destruct (listening_again_sockets rest fresh') as [I1 I2].
      destruct (listening_again fresh' rest) as [more st]. simpl in I1, I2.
      cbn [fst snd andb List.length]. rewrite Sk. cbn [flat_map].
      split; [|exact I2].
      unfold _listening.
      rewrite !sock_events_app, Q, I1, _close_request_sock_events, <- A.
      simpl. repeat (rewrite <- app_assoc; simpl). reflexivity.
    + cbn [fst snd andb orb firstn List.length]. rewrite Sk.
      split; [|reflexivity].
      rewrite sockets_of_none. cbn [flat_map]. unfold _listening.
      rewrite !sock_events_app, Q, _close_request_sock_events, <- A,
        app_nil_r.
      simpl. repeat (rewrite <- app_assoc; simpl). reflexivity.
  - cbn [next_connection fst snd]. unfold _listening. rewrite Q. simpl.
    rewrite orb_true_r. destruct (k srv); simpl; rewrite sockets_of_none;
      split; reflexivity.
Qed.

(** X19.  With a caller that writes nothing itself, a verbose server writes
    the line that it listens, one line for each peer it accepts and,
    under [k], "Connection closed, listening again." after each
    connection; a server that is not verbose writes no line.  A UDP
    server writes the first datagram of each peer it serves to its
    output stream before it yields the connection; a TCP server writes
    nothing there. *)
Theorem server_messages (fresh : nat) (script : list request) :
  quiet_caller ->
  stderr_of (fst (iter_connections fresh script))
  = (if v srv
     then (v_listening ++ newline)%string
            :: flat_map (lines_of (k srv)) (served script)
     else [])
  /\ stdout_of (fst (iter_connections fresh script))
     = match cls with
       | TCPServer => []
       | UDPServer => map snd (served script)
       end.
Proof.
  intros QC.
  destruct (print_verbose_silent v_listening) as [_ Q].
  pose proof (print_verbose_writes v_listening eq_refl) as L.
  assert (CloseQuiet : forall sock, stderr_of (_close_request sock) = []
                                    /\ stdout_of (_close_request sock) = []).
  { intros sock. unfold _close_request.
    destruct cls, (k srv); split; reflexivity. }
  unfold iter_connections, served.
  destruct script as [|[cli_dest cli_port data|] rest].
  - cbn [fst]. unfold _listening. rewrite Q, L.
    destruct (k srv), (v srv), cls; split; reflexivity.
  - destruct (next_connection_arrives fresh cli_dest cli_port data)
      as (evs & sock & fresh' & N & _ & _ & E & O).
    rewrite N. cbn [arrivals].
    destruct (QC sock) as [C1 C2]. destruct (CloseQuiet sock) as [C3 C4].
    destruct (k srv) eqn:K.
    + destruct (listening_again_messages rest QC fresh') as [I1 I2].
      destruct (listening_again fresh' rest) as [more st]. simpl in I1, I2.
      cbn [fst]. unfold _listening.
      rewrite !stderr_of_concat, !stdout_of_app, Q, L, E, O, I1, I2,
        C1, C2, C3, C4.
      split.
      * destruct (v srv); reflexivity.
      * destruct cls; reflexivity.
    + cbn [fst firstn]. unfold _listening.
      rewrite !stderr_of_concat, !stdout_of_app, Q, L, E, O,
        C1, C2, C3, C4.
      split.
      * destruct (v srv); reflexivity.
      * destruct cls; reflexivity.
  - cbn [next_connection fst]. unfold _listening. rewrite Q, L.
    destruct (k srv), (v srv), cls; split; reflexivity.
Qed.

End Iteration.

(** A verbose server on port 8000 and two peers. *)
Definition on_8000 (keep : bool) : NetcatServer :=
  {| dest := "0.0.0.0"; port := 8000; v := true; n := true; k := keep |}.

Definition two_peers : list request :=
  [Arrives "10.0.0.1" 40000 [x68; x69]; Arrives "10.0.0.2" 40001 [x79; x6f]].

Definition hands_off (sock : nat) : list event := [].

Example tcp_server_serves_one_peer :
  iter_connections "2" (fun _ _ => None) TCPServer (on_8000 false) 0 hands_off
                   1 two_peers
  = ([Wrote ("Listening on [0.0.0.0] (family 2, port 8000)" ++ newline);
      Accepted 1;
      Wrote ("Connection from [10.0.0.1] port 8000 [tcp/*] accepted (family 2, sport 40000)"
               ++ newline);
      Closed 0; Yielded 1; Closed 1],
     Returned).
Proof. reflexivity. Qed.

Example udp_server_keeps_its_socket :
  iter_connections "2" (fun _ _ => None) UDPServer (on_8000 true) 0 hands_off
                   1 two_peers
  = ([Wrote ("Listening on [0.0.0.0] (family 2, port 8000)" ++ newline);
      StdoutWrote [x68; x69]; Connected 0 "10.0.0.1" 40000;
      Wrote ("Connection from [10.0.0.1] port 8000 [udp/*] accepted (family 2, sport 40000)"
               ++ newline);
      Yielded 0;
      Wrote ("Connection closed, listening again." ++ newline);
      StdoutWrote [x79; x6f]; Connected 0 "10.0.0.2" 40001;
      Wrote ("Connection from [10.0.0.2] port 8000 [udp/*] accepted (family 2, sport 40001)"
               ++ newline);
      Yielded 0;
      Wrote ("Connection closed, listening again." ++ newline)],
     Waiting).
Proof. reflexivity. Qed.

Lemma server_messages_witness :
  stdout_of (fst (iter_connections "2" (fun _ _ => None) UDPServer
                    (on_8000 true) 0 hands_off 1 two_peers))
  = [[x68; x69]; [x79; x6f]].
Proof.
  exact (proj2 (server_messages "2" (fun _ _ => None) UDPServer (on_8000 true)
                  0 hands_off 1 two_peers
                  (fun sock => conj eq_refl eq_refl))).
Defined.

End Server.

(** ** The command line: modes, objects and the source port *)

Module CliFacts.
Import Py Ports Cli.

Section Parser.

Variable py_int : string -> option Z.
Variable repr_port : option port_value -> string.

(** The namespace that [parse_args] returns when it changes nothing. *)
Definition unchanged (args : general_arguments)
    (client_args : client_arguments) (server_args : server_arguments)
    : namespace :=
  {| general := args;
     selected := if l server_args then ServerMode server_args
                 else ClientMode client_args |}.

(** The transport and the keyword arguments of an object. *)
Definition transport_of (nc : netcat) : transport :=
  match nc with
  | Server srv => server_transport srv
  | Client cli => client_transport cli
  end.



(** The namespace of [-l -p value], with nothing else on the line. *)
Definition listen_on_source_port (source : Z) (udp : bool)
    : general_arguments :=
  {| dest := ""; port := None; p := Some source; u := udp;
     options := no_options |}.

(** X20.  A client needs a destination and a port and nothing else decides;
    a server is refused only without a destination, when a port is
    given or no source port is.  Only the form [-l port] goes through
    the port grammar again and only that form can end in a parser
    error; in every other accepted form the namespace is returned as it
    was parsed. *)
Theorem parse_args_modes (args : general_arguments)
    (client_args : client_arguments) (server_args : server_arguments) :
  let has_dest := truthy_str (dest args) in
  let has_port := given_port (port args) in
  let has_p := given_int (p args) in
  let reparses := l server_args && has_dest && negb has_port && negb has_p in
  let refuses :=
    if l server_args then negb has_dest && (has_port || negb has_p)
    else negb (has_dest && has_port) in
  (parse_args py_int args client_args server_args = UsageExit
   <-> refuses = true)
  /\ (parse_args py_int args client_args server_args = ParserError
      -> reparses = true)
  /\ (refuses = false -> reparses = false ->
      parse_args py_int args client_args server_args
      = Parsed (unchanged args client_args server_args))
  /\ (reparses = true ->
      parse_args py_int args client_args server_args
      = match parse_port_tokens py_int [dest args] with
        | Some test_port =>
            Parsed {| general := set_dest_port args "" test_port;
                      selected := ServerMode server_args |}
        | None => ParserError
        end).
Proof.
  unfold parse_args, reparsed_port, unchanged.
  destruct (l server_args), (truthy_str (dest args)),
    (given_port (port args)), (given_int (p args)); simpl;
    repeat split; try discriminate; try reflexivity;
    try (destruct (parse_port_tokens py_int [dest args]); discriminate).
Qed.


(** X22.  Whatever the parser accepts after [-p] is a port number from 1 to
    65535, and [-l -p value] with nothing else on the line is a server
    on all interfaces on that port. *)
Theorem listen_on_source_port_alone (value : string) (source : Z)
    (udp : bool) (client_args : client_arguments) (keep : bool) :
  Options.source_port py_int value = Some source ->
  1 <= source <= 65535
  /\ exists ns,
       parse_args py_int (listen_on_source_port source udp) client_args
                  {| k := keep; l := true |}
       = Parsed ns
       /\ bind_address (from_namespace repr_port ns)
          = Some ("0.0.0.0", inl source)
       /\ transport_of (from_namespace repr_port ns)
          = (if udp then UDP else TCP).
Proof.
  unfold Options.source_port. intros H.
  destruct (py_int value) as [parsed|]; [|discriminate].
  destruct (_valid_port parsed) eqn:V; [|discriminate].
  inversion H. subst parsed.
  assert (B : 1 <= source <= 65535).
  { unfold _valid_port in V. apply andb_true_iff in V.
    destruct V as [V1 V2]. apply Z.leb_le in V1, V2. lia. }
  split; [exact B|].
  assert (G : given_int (Some source) = true).
  { unfold given_int, truthy_int. destruct (Z.eqb_spec source 0); [lia|].
    reflexivity. }
  unfold parse_args.
  change (l {| k := keep; l := true |}) with true.
  change (truthy_str (dest (listen_on_source_port source udp))) with false.
  change (given_port (port (listen_on_source_port source udp))) with false.
  change (p (listen_on_source_port source udp)) with (Some source).
  rewrite G. cbn [andb negb].
  eexists. split; [reflexivity|].
  unfold from_namespace, Netcat. simpl. destruct udp; split; reflexivity.
Qed.

End Parser.

Lemma parse_args_modes_witness :
  parse_args decimal_int listen_8000 no_client_arguments
             {| k := false; l := true |}
  = Parsed {| general := set_dest_port listen_8000 "" (Some (PortInt 8000));
              selected := ServerMode {| k := false; l := true |} |}.
Proof.
  exact (proj2 (proj2 (proj2 (parse_args_modes decimal_int listen_8000
                                no_client_arguments
                                {| k := false; l := true |})))
               eq_refl).
Defined.


Lemma listen_on_source_port_alone_witness : 1 <= 8000 <= 65535.
Proof.
  exact (proj1 (listen_on_source_port_alone decimal_int repr_object
                  "8000" 8000 false no_client_arguments false eq_refl)).
Defined.

End CliFacts.

(** ** The entry point: a scan that meets an error *)

Module PyncFacts.
Import Py Exec Client Pync.

Section Run.

Variable py_int : string -> option Z.
Variable py_repr : string -> string.
Variable getservbyport : Z -> string -> option string.
Variable cls : client_class.
Variable c : NetcatClient.


End Run.


End PyncFacts.

(** ** The pipes of the interpreted code: [PythonProcess] *)

Module ProcessFacts.
Import Py Process.

(** [conn.send_bytes(data)]: one more message in the connection. *)
Definition send_bytes (data : bytes) (st : piped) : piped :=
  {| messages := (messages st ++ [data])%list;
     writer_closed := writer_closed st; alive := alive st |}.

(** [PythonStdinWriter.write] *)
Definition PythonStdinWriter_write (data : bytes) (st : piped) : piped :=
  send_bytes data st.

(** What a read of the code's input gives: a text, an exception, or
    no return while the connection is empty and open. *)
Inductive stdin_result : Type :=
| Text (data : string)
| Raises (e : exn)
| Blocks.

(** The streams of the code: [PythonProcess.run] makes one writer both
    [sys.stdout] and [sys.stderr]. *)
Inductive stream : Type := Stdout | Stderr.

Section Pipes.

(** [str.encode()] and [bytes.decode()]; [None] is a decoding error. *)
Variable encode : string -> bytes.
Variable decode : bytes -> option string.

(** [PythonStdoutWriter.write] *)
Definition PythonStdoutWriter_write (data : string) (st : piped) : piped :=
  send_bytes (encode data) st.

(** [PythonStdinReader.read]; the arguments of the call are ignored. *)
Definition PythonStdinReader_read (st : piped) : stdin_result * piped :=
  match messages st with
  | data :: rest =>
      (match decode data with
       | Some text => Text text
       | None => Raises (OtherError "UnicodeDecodeError")
       end,
       {| messages := rest; writer_closed := writer_closed st;
          alive := alive st |})
  | [] =>
      if writer_closed st then (Raises (OtherError "EOFError"), st)
      else (Blocks, st)
  end.

(** [PythonStdinReader.read1] and [PythonStdinReader.readline] *)
Definition PythonStdinReader_read1 (st : piped) : stdin_result * piped :=
  PythonStdinReader_read st.

Definition PythonStdinReader_readline (st : piped) : stdin_result * piped :=
  PythonStdinReader_read st.

(** The code prints: each [write] on [sys.stdout] or [sys.stderr] goes
    through the writer of the output connection. *)
Fixpoint prints (writes : list (stream * string)) (st : piped) : piped :=
  match writes with
  | [] => st
  | (_, data) :: rest => prints rest (PythonStdoutWriter_write data st)
  end.

(** The parent writes chunks to the input of the code. *)
Fixpoint feeds (chunks : list bytes) (st : piped) : piped :=
  match chunks with
  | [] => st
  | data :: rest => feeds rest (PythonStdinWriter_write data st)
  end.

(** The texts that calls of [readline] in a row return, with what ended
    the row. *)
Fixpoint readlines (fuel : nat) (st : piped) : list string * stdin_result :=
  match fuel with
  | O => ([], Blocks)
  | S fuel' =>
      match PythonStdinReader_readline st with
      | (Text text, st') =>
          let '(texts, last) := readlines fuel' st' in (text :: texts, last)
      | (other, _) => ([], other)
      end
  end.

Lemma prints_messages (writes : list (stream * string)) : forall st,
  messages (prints writes st)
  = (messages st ++ map (fun sw => encode (snd sw)) writes)%list
  /\ alive (prints writes st) = alive st
  /\ writer_closed (prints writes st) = writer_closed st.
Proof.
  induction writes as [|[s data] rest IH]; intros st; simpl.
  - rewrite app_nil_r. auto.
  - destruct (IH (PythonStdoutWriter_write data st)) as (M & A & W).
    rewrite M, A, W. simpl. rewrite <- app_assoc. auto.
Qed.

Lemma feeds_messages (chunks : list bytes) : forall st,
  messages (feeds chunks st) = (messages st ++ chunks)%list
  /\ writer_closed (feeds chunks st) = writer_closed st.
Proof.
  induction chunks as [|data rest IH]; intros st; simpl.
  - rewrite app_nil_r. auto.
  - destruct (IH (PythonStdinWriter_write data st)) as (M & W).
    rewrite M, W. simpl. rewrite <- app_assoc. auto.
Qed.

Lemma drain_messages : forall (waiting : list bytes) (st : piped),
  messages st = waiting ->
  drain PythonStdoutReader_read (List.length waiting) st = (waiting, None).
Proof.
  induction waiting as [|data rest IH]; intros st M; simpl; [reflexivity|].
  unfold PythonStdoutReader_read, poll. rewrite M.
  rewrite IH; reflexivity.
Qed.

Lemma readlines_step (fuel : nat) (st : piped) :
  readlines (S fuel) st
  = match PythonStdinReader_readline st with
    | (Text text, st') =>
        let '(texts, last) := readlines fuel st' in (text :: texts, last)
    | (other, _) => ([], other)
    end.
Proof. reflexivity. Qed.

Lemma readlines_messages (texts : list string) : forall st,
  (forall text, decode (encode text) = Some text) ->
  messages st = map encode texts -> writer_closed st = false ->
  readlines (S (List.length texts)) st = (texts, Blocks).
Proof.
  induction texts as [|text rest IH]; intros st RT M W.
  - simpl. unfold PythonStdinReader_readline, PythonStdinReader_read.
    simpl in M. rewrite M, W. reflexivity.
  - cbn [List.length]. rewrite readlines_step.
    unfold PythonStdinReader_readline, PythonStdinReader_read.
    simpl in M. rewrite M, RT.
    rewrite IH; [reflexivity | exact RT | reflexivity | exact W].
Qed.

(** X24.  The connections keep what is written apart and in order.  The
    parent reads what the code printed one [write] per read, as encoded
    bytes, with the output and the error stream of the code mixed in the
    order of the writes; the code reads what the parent wrote one
    [write] per [readline], whatever the lines in it, and then waits. *)
Theorem process_pipes_keep_messages
    (writes : list (stream * string)) (texts : list string) (st : piped) :
  (forall text, decode (encode text) = Some text) ->
  messages st = [] -> writer_closed st = false ->
  drain PythonStdoutReader_read (List.length writes) (prints writes st)
  = (map (fun sw => encode (snd sw)) writes, None)
  /\ readlines (S (List.length texts)) (feeds (map encode texts) st)
     = (texts, Blocks).
Proof.
  intros RT M W.
  destruct (prints_messages writes st) as (PM & PA & PW).
  rewrite M in PM. simpl in PM.
  destruct (feeds_messages (map encode texts) st) as (FM & FW).
  rewrite M in FM. simpl in FM. split.
  - rewrite <- (length_map (fun sw => encode (snd sw)) writes).
    apply drain_messages. exact PM.
  - apply readlines_messages; [exact RT | exact FM | rewrite FW; exact W].
Qed.

End Pipes.

Lemma process_pipes_keep_messages_witness :
  readlines (fun b => Some (string_of_list_byte b)) 3
            (feeds [list_byte_of_string "a"; list_byte_of_string "b"]
                   {| messages := []; writer_closed := false; alive := true |})
  = (["a"; "b"], Blocks).
Proof.
  exact (proj2 (process_pipes_keep_messages
                  list_byte_of_string (fun b => Some (string_of_list_byte b))
                  [(Stdout, "x")] ["a"; "b"]
                  {| messages := []; writer_closed := false; alive := true |}
                  (fun text => f_equal Some (string_of_list_byte_of_string text))
                  eq_refl eq_refl)).
Defined.

End ProcessFacts.

(** ** The plugins: [pync/__init__.py] *)

Module Plugins.
Import Py.

Section Loading.

(** The module object that every plugin is called with. *)
Variable module : Type.

(** An entry point of the group [pync_plugins]: [load()] raises, or
    gives a plugin; a call of the plugin leaves the module changed and
    returns or raises. *)
Inductive entry_point : Type :=
| LoadRaises (e : exn)
| Loads (plugin : module -> module * option exn).

(** The loop over [iter_entry_points]: the module as the plugins left
    it, and the exception that ended the import, if any. *)
Fixpoint load_plugins (entry_points : list entry_point) (self : module)
    : module * option exn :=
  match entry_points with
  | [] => (self, None)
  | LoadRaises e :: _ => (self, Some e)
  | Loads plugin :: rest =>
      match plugin self with
      | (self', None) => load_plugins rest self'
      | (self', Some e) => (self', Some e)
      end
  end.

(** The plugins called, in order. *)
Fixpoint called (entry_points : list entry_point) (self : module)
    : list (module -> module * option exn) :=
  match entry_points with
  | [] => []
  | LoadRaises _ :: _ => []
  | Loads plugin :: rest =>
      plugin :: match plugin self with
                | (self', None) => called rest self'
                | (_, Some _) => []
                end
  end.

(** X25.  Plugins are called in the order of their entry points, each
    with the module as the plugins before it left it.  The import goes
    through when every plugin does; the first entry point that fails to
    load, or whose plugin raises, ends it with that exception, and the
    entry points after it are neither loaded nor called. *)
Theorem plugins_load_in_order (first rest : list entry_point)
    (self : module) :
  snd (load_plugins first self) = None ->
  load_plugins (first ++ rest) self
  = load_plugins rest (fst (load_plugins first self))
  /\ called (first ++ rest) self
     = (called first self
          ++ called rest (fst (load_plugins first self)))%list
  /\ (forall e later,
        load_plugins (first ++ LoadRaises e :: later) self
        = (fst (load_plugins first self), Some e)
        /\ called (first ++ LoadRaises e :: later) self = called first self)
  /\ (forall plugin self' e later,
        plugin (fst (load_plugins first self)) = (self', Some e) ->
        load_plugins (first ++ Loads plugin :: later) self = (self', Some e)
        /\ called (first ++ Loads plugin :: later) self
           = (called first self ++ [plugin])%list).
Proof.
  revert self. induction first as [|[e0|plugin0] first IH]; intros self OK.
  - simpl. split; [reflexivity|]. split; [reflexivity|]. split.
    + intros e later. auto.
    + intros plugin self' e later F. rewrite F. auto.
  - discriminate OK.
  - simpl in *. destruct (plugin0 self) as [self0 [e0|]]; [discriminate OK|].
    destruct (IH self0 OK) as (A & B & C & D).
    split; [exact A|]. split; [rewrite B; reflexivity|]. split.
    + intros e later. destruct (C e later) as [C1 C2].
      rewrite C1, C2. auto.
    + intros plugin self' e later F.
      destruct (D plugin self' e later F) as [D1 D2].
      rewrite D1, D2. auto.
Qed.

End Loading.

(** A module that records the names of the plugins that ran. *)
Definition named (name : string) : entry_point (list string) :=
  Loads (list string) (fun self => ((self ++ [name])%list, None)).

Example second_plugin_fails :
  load_plugins (list string)
    [named "a"; LoadRaises (list string) (OtherError "ImportError"); named "c"]
    []
  = (["a"], Some (OtherError "ImportError")).
Proof. reflexivity. Qed.

Lemma plugins_load_in_order_witness :
  load_plugins (list string) ([named "a"] ++ [named "b"]) []
  = load_plugins (list string) [named "b"] ["a"].
Proof.
  exact (proj1 (plugins_load_in_order (list string) [named "a"] [named "b"]
                  [] eq_refl)).
Defined.

End Plugins.
